(** * rfw: the iptables rule model of [rfw_service/iptables.py]

    A shallow embedding of the module's value object [Rule] and of the
    static methods of the class [Iptables], followed by the properties the
    specification states about them.  The module is Python 2 code: [str] is
    a byte string, modelled by [string]; a [dict] with string keys is a
    [gmap string _]; a raised exception is the [Err] branch of [result]. *)

From Stdlib Require Import String Ascii List Bool Arith ZArith Lia.
From stdpp Require Import base option list gmap strings.

Local Open Scope string_scope.
Local Open Scope list_scope.

(** ** Python values and exceptions *)

(** The values a [Rule] attribute holds: the parser stores [str], the
    dictionary constructor defaults some attributes to [None], and callers
    may pass numbers. *)
Inductive value : Type :=
  | VNone
  | VStr (s : string)
  | VInt (z : Z).

#[global] Instance value_eq_dec : EqDecision value.
Proof. solve_decision. Defined.

#[global] Instance value_inhabited : Inhabited value := populate VNone.

(** [a == b] on these values. *)
Definition py_eq (a b : value) : bool := bool_decide (a = b).

(** [a != b]. *)
Definition py_ne (a b : value) : bool := negb (py_eq a b).

(** [x in vals] for a list [vals]: some element compares equal. *)
Definition py_in (x : value) (vals : list value) : bool :=
  existsb (py_eq x) vals.

(** Truth value of an object in a condition ([if r.extra:]). *)
Definition truthy (v : value) : bool :=
  match v with
  | VNone => false
  | VStr s => negb (String.eqb s EmptyString)
  | VInt z => negb (Z.eqb z 0)
  end.

(** The exceptions the module can raise by itself. *)
Inductive exn : Type :=
  | ValueError
  | TypeError
  | AssertionError
  | AttributeError
  | IndexError.

#[global] Instance exn_eq_dec : EqDecision exn.
Proof. solve_decision. Defined.

(** A computation that returns or raises. *)
Inductive result (A : Type) : Type :=
  | Ok (a : A)
  | Err (e : exn).

Arguments Ok {A} a.
Arguments Err {A} e.

Definition bind {A B : Type} (m : result A) (k : A -> result B) : result B :=
  match m with
  | Ok a => k a
  | Err e => Err e
  end.

Notation "'do' x <- m ; k" := (bind m (fun x => k))
  (at level 10, x pattern, m at level 100, k at level 200).

(** ** The [str] methods the module calls *)

Module PyStr.

(** [c.isspace()] for a byte in the C locale: space, and \t \n \v \f \r. *)
Definition isspace (c : ascii) : bool :=
  let n := nat_of_ascii c in
  (n =? 32)%nat || ((9 <=? n)%nat && (n <=? 13)%nat).

(** A decimal digit byte. *)
Definition isdigit_char (c : ascii) : bool :=
  let n := nat_of_ascii c in (48 <=? n)%nat && (n <=? 57)%nat.

(** The class [\w] of [re] without flags: [a-zA-Z0-9_]. *)
Definition isword (c : ascii) : bool :=
  let n := nat_of_ascii c in
  isdigit_char c
  || ((65 <=? n)%nat && (n <=? 90)%nat)
  || ((97 <=? n)%nat && (n <=? 122)%nat)
  || (n =? 95)%nat.

Definition is_empty (s : string) : bool :=
  match s with EmptyString => true | String _ _ => false end.

Fixpoint forall_chars (p : ascii -> bool) (s : string) : bool :=
  match s with
  | EmptyString => true
  | String c s' => p c && forall_chars p s'
  end.

(** [s.isdigit()]: at least one byte, and every byte a digit. *)
Definition isdigit (s : string) : bool :=
  negb (is_empty s) && forall_chars isdigit_char s.

Fixpoint lstrip (s : string) : string :=
  match s with
  | EmptyString => EmptyString
  | String c s' => if isspace c then lstrip s' else s
  end.

Fixpoint rstrip (s : string) : string :=
  match s with
  | EmptyString => EmptyString
  | String c s' =>
      let r := rstrip s' in
      if isspace c && is_empty r then EmptyString else String c r
  end.

(** [s.strip()]. *)
Definition strip (s : string) : string := rstrip (lstrip s).

(** The pieces of [s] between occurrences of [sep], as the first piece and
    the pieces after it. *)
Fixpoint split_pieces (sep : ascii) (s : string) : string * list string :=
  match s with
  | EmptyString => (EmptyString, [])
  | String c s' =>
      let '(h, t) := split_pieces sep s' in
      if Ascii.eqb c sep then (EmptyString, h :: t) else (String c h, t)
  end.

(** [s.split(sep)] for a one-byte separator: never an empty list. *)
Definition split_on (sep : ascii) (s : string) : list string :=
  let '(h, t) := split_pieces sep s in h :: t.

Definition cons_word (w : string) (ws : list string) : list string :=
  if is_empty w then ws else w :: ws.

Fixpoint split_words (s : string) : string * list string :=
  match s with
  | EmptyString => (EmptyString, [])
  | String c s' =>
      let '(h, t) := split_words s' in
      if isspace c then (EmptyString, cons_word h t) else (String c h, t)
  end.

(** [s.split()]: the maximal runs of non-whitespace bytes. *)
Definition split (s : string) : list string :=
  let '(h, t) := split_words s in cons_word h t.

(** [sub in s]. *)
Fixpoint contains (sub s : string) : bool :=
  String.prefix sub s
  || match s with
     | EmptyString => false
     | String _ s' => contains sub s'
     end.

(** [sep.join(l)]. *)
Definition join (sep : string) (l : list string) : string :=
  String.concat sep l.

(** [s[:n]]. *)
Definition slice_to (n : nat) (s : string) : string := String.substring 0 n s.

(** The longest prefix of bytes satisfying [p], and what follows it. *)
Fixpoint span (p : ascii -> bool) (s : string) : string * string :=
  match s with
  | EmptyString => (EmptyString, EmptyString)
  | String c s' =>
      if p c then let '(w, r) := span p s' in (String c w, r)
      else (EmptyString, s)
  end.

Fixpoint drop_chars (n : nat) (s : string) : string :=
  match n, s with
  | O, _ => s
  | S n', String _ s' => drop_chars n' s'
  | S _, EmptyString => EmptyString
  end.

(** [m = re.match(r"Chain (\w+) .*", line)], as [m.group(1)] when there is
    a match.  The pattern is anchored at the start only.  After the literal
    [Chain ] the greedy [\w+] takes the longest run of word bytes; the byte
    after it has to be a space, and giving back word bytes cannot help
    because the byte then following would be a word byte.  [.*] matches any
    remainder (also the empty one). *)
Definition re_match_chain (line : string) : option string :=
  if String.prefix "Chain " line then
    let '(w, r) := span isword (drop_chars 6 line) in
    if negb (is_empty w) && String.prefix " " r then Some w else None
  else None.

End PyStr.

(** ** Module constants *)

Definition IPTABLES_HEADERS : list string :=
  ["num"; "pkts"; "bytes"; "target"; "prot"; "opt"; "in"; "out"; "source";
   "destination"].

Definition RULE_ATTRS : list string :=
  ["chain"; "num"; "pkts"; "bytes"; "target"; "prot"; "opt"; "inp"; "out";
   "source"; "destination"; "extra"].

Definition RULE_TARGETS : list string := ["DROP"; "ACCEPT"; "REJECT"].

Definition RULE_CHAINS : list string := ["INPUT"; "OUTPUT"; "FORWARD"].

(** ** The value object [Rule] *)

(** [RuleProto = namedtuple('Rule', RULE_ATTRS)]: twelve attributes, in the
    order of [RULE_ATTRS]. *)
Record Rule : Type := mkRule {
  chain : value;
  num : value;
  pkts : value;
  bytes : value;
  target : value;
  prot : value;
  opt : value;
  inp : value;
  out : value;
  source : value;
  destination : value;
  extra : value
}.

#[global] Instance Rule_eq_dec : EqDecision Rule.
Proof. solve_decision. Defined.

(** The objects that reach the constructor and the comparison: a [Rule], a
    plain value, a [list], a [tuple], or a [dict] with string keys. *)
Inductive pyobj : Type :=
  | PRule (r : Rule)
  | PVal (v : value)
  | PList (l : list value)
  | PTuple (l : list value)
  | PDict (d : gmap string value).

(** [isinstance(o, Rule)]. *)
Definition is_Rule (o : pyobj) : bool :=
  match o with PRule _ => true | _ => false end.

(** [isinstance(o, list) or isinstance(o, dict)]. *)
Definition is_list_or_dict (o : pyobj) : bool :=
  match o with PList _ | PDict _ => true | _ => false end.

(** [RuleProto.__new__(_cls, *props)]: the generated constructor takes
    exactly the twelve attributes; any other number of positional arguments
    is a [TypeError]. *)
Definition RuleProto_new_args (props : list value) : result Rule :=
  match props with
  | [c; n; p; b; t; pr; o; i; ou; s; d; e] =>
      Ok (mkRule c n p b t pr o i ou s d e)
  | _ => Err TypeError
  end.

(** All twelve attributes of a keyword dictionary, if present. *)
Definition lookup_attrs (d : gmap string value) : option Rule :=
  c ← d !! "chain"; n ← d !! "num"; p ← d !! "pkts"; b ← d !! "bytes";
  t ← d !! "target"; pr ← d !! "prot"; o ← d !! "opt"; i ← d !! "inp";
  ou ← d !! "out"; s ← d !! "source"; de ← d !! "destination";
  e ← d !! "extra";
  Some (mkRule c n p b t pr o i ou s de e).

(** [RuleProto.__new__(_cls, **d)]: a keyword that is no attribute, or a
    missing attribute, is a [TypeError]. *)
Definition RuleProto_new_kwargs (d : gmap string value) : result Rule :=
  if bool_decide (dom d ⊆ list_to_set RULE_ATTRS) then
    match lookup_attrs d with
    | Some r => Ok r
    | None => Err TypeError
    end
  else Err TypeError.

(** The dictionary of defaults that [Rule.__new__] updates with [props]. *)
Definition Rule_defaults : gmap string value :=
  list_to_map
    [("chain", VNone); ("num", VNone); ("pkts", VNone); ("bytes", VNone);
     ("target", VNone); ("prot", VStr "all"); ("opt", VStr "--");
     ("inp", VStr "*"); ("out", VStr "*"); ("source", VStr "0.0.0.0/0");
     ("destination", VStr "0.0.0.0/0"); ("extra", VStr EmptyString)].

(** [Rule.__new__(_cls, *args, **kwargs)].  [d.update(props)] lets the
    entries of [props] win over the defaults.  With no argument at all the
    code passes the single positional argument [[]] to the generated
    constructor, which wants twelve. *)
Definition Rule__new__ (args : list pyobj) (kwargs : gmap string value)
  : result Rule :=
  match args with
  | _ :: _ =>
      if negb (length args =? 1)%nat then Err ValueError
      else
        match args with
        | [PList props] => RuleProto_new_args props
        | [PDict props] => RuleProto_new_kwargs (props ∪ Rule_defaults)
        | _ => Err ValueError
        end
  | [] =>
      if bool_decide (kwargs ≠ ∅) then RuleProto_new_kwargs kwargs
      else Err TypeError
  end.

(** [Rule.__eq__(self, other)]. *)
Definition Rule__eq__ (self : Rule) (other : pyobj) : bool :=
  match other with
  | PRule o =>
      py_eq (chain self) (chain o) && py_eq (target self) (target o)
      && py_eq (prot self) (prot o) && py_eq (opt self) (opt o)
      && py_eq (inp self) (inp o) && py_eq (out self) (out o)
      && py_eq (source self) (source o)
      && py_eq (destination self) (destination o)
  | _ => false
  end.

(** [Rule.__ne__(self, other)]. *)
Definition Rule__ne__ (self : Rule) (other : pyobj) : bool :=
  negb (Rule__eq__ self other).

(** ** The class [Iptables] *)

Module Iptables.

(** An instance holds the rules that [load] read. *)
Record t : Type := mk { rules : list Rule }.

(** The state of the loop of [_iptables_list]: the current [chain]
    ([None] until a recognised chain line is met) and the [rules] so far. *)
Definition parse_state : Type := (option string * list Rule)%type.

(** [m and m.group(1) in RULE_CHAINS], as the chain name when it holds. *)
Definition chain_line (line : string) : option string :=
  match PyStr.re_match_chain line with
  | Some name => if bool_decide (name ∈ RULE_CHAINS) then Some name else None
  | None => None
  end.

(** ["source" in line and "destination" in line]. *)
Definition header_like (line : string) : bool :=
  PyStr.contains "source" line && PyStr.contains "destination" line.

(** [assert cond]. *)
Definition assert (cond : bool) : result unit :=
  if cond then Ok tt else Err AssertionError.

(** The list handed to [Rule(columns)]: the chain, the first ten columns
    and the remaining ones joined by single spaces. *)
Definition rule_columns (chain : string) (columns : list string)
  : list string :=
  let extra := PyStr.join " " (drop 10 columns) in
  let columns := take 10 columns in
  let columns := columns ++ [extra] in
  chain :: columns.

(** The body of the loop of [_iptables_list] for one element of
    [out.split('\n')]. *)
Definition parse_line (st : parse_state) (line : string)
  : result parse_state :=
  let '(chain, rules) := st in
  let line := PyStr.strip line in
  if PyStr.is_empty line then Ok (None, rules)
  else
    match chain_line line with
    | Some name => Ok (Some name, rules)
    | None =>
        if header_like line then
          do _ <- assert (bool_decide (PyStr.split line = IPTABLES_HEADERS));
          Ok (chain, rules)
        else
          match chain with
          | Some c =>
              let columns := PyStr.split line in
              match columns with
              | c0 :: _ =>
                  if PyStr.isdigit c0 then
                    do rule <- Rule__new__
                                 [PList (VStr <$> rule_columns c columns)] ∅;
                    Ok (chain, rules ++ [rule])
                  else Ok (chain, rules)
              | [] => Ok (chain, rules)
              end
          | None => Ok (chain, rules)
          end
    end.

(** The loop over the lines. *)
Fixpoint parse_lines (st : parse_state) (lines : list string)
  : result parse_state :=
  match lines with
  | [] => Ok st
  | line :: rest => do st' <- parse_line st line; parse_lines st' rest
  end.

(** [_iptables_list()], as a function of the text [out] that the listing
    command printed. *)
Definition _iptables_list (out : string) : result (list Rule) :=
  do st <- parse_lines (None, []) (PyStr.split_on "010"%char out);
  Ok (snd st).

(** One iteration of the loop over the tokens of [r.extra]. *)
Definition extra_token (lcmd : list value) (e : string)
  : result (list value) :=
  do lcmd <-
    (if String.eqb (PyStr.slice_to 4 e) "dpt:" then
       match PyStr.split_on ":"%char e !! 1%nat with
       | Some dport => Ok (lcmd ++ [VStr "--dport"; VStr dport])
       | None => Err IndexError
       end
     else Ok lcmd);
  if String.eqb (PyStr.slice_to 4 e) "spt:" then
    match PyStr.split_on ":"%char e !! 1%nat with
    | Some sport => Ok (lcmd ++ [VStr "--sport"; VStr sport])
    | None => Err IndexError
    end
  else Ok lcmd.

Fixpoint extra_tokens (lcmd : list value) (es : list string)
  : result (list value) :=
  match es with
  | [] => Ok lcmd
  | e :: rest => do lcmd <- extra_token lcmd e; extra_tokens lcmd rest
  end.

(** [rule_to_command(r)].  [r.extra.split()] exists for a [str] only. *)
Definition rule_to_command (r : Rule) : result (list value) :=
  do _ <- assert (py_eq (chain r) (VStr "INPUT")
                  || py_eq (chain r) (VStr "OUTPUT")
                  || py_eq (chain r) (VStr "FORWARD"));
  let lcmd := [] in
  let lcmd := lcmd ++ [chain r] in
  let lcmd :=
    if py_ne (prot r) (VStr "all") then lcmd ++ [VStr "-p"; prot r]
    else lcmd in
  do lcmd <-
    (if truthy (extra r) then
       match extra r with
       | VStr s => extra_tokens lcmd (PyStr.split s)
       | _ => Err AttributeError
       end
     else Ok lcmd);
  let lcmd :=
    if py_ne (destination r) (VStr "0.0.0.0/0")
    then lcmd ++ [VStr "-d"; destination r] else lcmd in
  let lcmd :=
    if py_ne (source r) (VStr "0.0.0.0/0")
    then lcmd ++ [VStr "-s"; source r] else lcmd in
  Ok (lcmd ++ [VStr "-j"; target r]).

(** What [getattr(r, param)] returns: a value, or an object that is none of
    the values (a bound method, the tuple of field names, the class). *)
Inductive attribute : Type :=
  | AttrValue (v : value)
  | AttrObject.

(** [rule_val in vals] for a list [vals] of values: an object that is no
    value compares equal to none of them. *)
Definition attr_in (rule_val : attribute) (vals : list value) : bool :=
  match rule_val with
  | AttrValue v => py_in v vals
  | AttrObject => false
  end.

Section attribute_lookup.

(** What a rule answers for a name that is none of its twelve fields: the
    attributes that a tuple, a namedtuple and an instance of a class have
    besides ([count], [index], [_fields], [_asdict], [__class__],
    [__doc__], ...), and [AttributeError] for a name it does not have.
    Which names those are is the interpreter's business, not this
    module's. *)
Variable other_attribute : Rule -> string -> result attribute.

(** [getattr(r, param)]. *)
Definition getattr (r : Rule) (param : string) : result attribute :=
  if String.eqb param "chain" then Ok (AttrValue (chain r))
  else if String.eqb param "num" then Ok (AttrValue (num r))
  else if String.eqb param "pkts" then Ok (AttrValue (pkts r))
  else if String.eqb param "bytes" then Ok (AttrValue (bytes r))
  else if String.eqb param "target" then Ok (AttrValue (target r))
  else if String.eqb param "prot" then Ok (AttrValue (prot r))
  else if String.eqb param "opt" then Ok (AttrValue (opt r))
  else if String.eqb param "inp" then Ok (AttrValue (inp r))
  else if String.eqb param "out" then Ok (AttrValue (out r))
  else if String.eqb param "source" then Ok (AttrValue (source r))
  else if String.eqb param "destination" then Ok (AttrValue (destination r))
  else if String.eqb param "extra" then Ok (AttrValue (extra r))
  else other_attribute r param.

(** The inner loop of [find] over [query.items()], in the order the
    dictionary yields them: the final value of [matched_all]. *)
Fixpoint matched_all (r : Rule) (items : list (string * list value))
  : result bool :=
  match items with
  | [] => Ok true
  | (param, vals) :: rest =>
      do rule_val <- getattr r param;
      if negb (attr_in rule_val vals) then Ok false
      else matched_all r rest
  end.

(** The outer loop of [find], with [ret] the list built so far. *)
Fixpoint find_loop (rs : list Rule) (items : list (string * list value))
  (ret : list Rule) : result (list Rule) :=
  match rs with
  | [] => Ok ret
  | r :: rest =>
      do m <- matched_all r items;
      find_loop rest items (if m then ret ++ [r] else ret)
  end.

(** [self.find(query)]: the instance after the call, which nothing has
    assigned to, and the list returned. *)
Definition find (self : t) (query : list (string * list value))
  : t * result (list Rule) :=
  (self, find_loop (rules self) query []).

End attribute_lookup.

End Iptables.

(** ** What the specification says of a listing *)

Module Listing.

Import PyStr Iptables.

(** The lines of a listing as the parser looks at them: the pieces between
    newlines, each stripped. *)
Definition lines_of (out : string) : list string :=
  strip <$> split_on "010"%char out.

(** The chain context given the preceding lines, nearest first: the nearest
    line that is blank or names a recognised chain decides; a blank line, or
    no such line, means no context. *)
Fixpoint nearest_context (before : list string) : option string :=
  match before with
  | [] => None
  | l :: older =>
      if is_empty l then None
      else match chain_line l with
           | Some name => Some name
           | None => nearest_context older
           end
  end.

(** The chain context in which line [i] of [ls] is read. *)
Definition context_at (ls : list string) (i : nat) : option string :=
  nearest_context (reverse (take i ls)).

(** The first whitespace-delimited token is numeric. *)
Definition numeric_first (l : string) : bool :=
  match split l with
  | c0 :: _ => isdigit c0
  | [] => false
  end.

(** A line that the header check stops: not blank, no recognised chain
    line, with both words somewhere in it, and columns other than the
    expected ones. *)
Definition bad_header (l : string) : bool :=
  negb (is_empty l) && bool_decide (chain_line l = None) && header_like l
  && bool_decide (split l ≠ IPTABLES_HEADERS).

(** A rule line, as the specification words it: a non-blank line, read in a
    chain context, whose first token is numeric. *)
Definition rule_line (ctx : option string) (l : string) : bool :=
  bool_decide (is_Some ctx) && negb (is_empty l) && numeric_first l.

(** The record the specification describes for the columns of a rule line
    read in chain [c]. *)
Definition record_of (c : string) (cols : list string) : Rule :=
  {| chain := VStr c;
     num := VStr (cols !!! 0%nat);
     pkts := VStr (cols !!! 1%nat);
     bytes := VStr (cols !!! 2%nat);
     target := VStr (cols !!! 3%nat);
     prot := VStr (cols !!! 4%nat);
     opt := VStr (cols !!! 5%nat);
     inp := VStr (cols !!! 6%nat);
     out := VStr (cols !!! 7%nat);
     source := VStr (cols !!! 8%nat);
     destination := VStr (cols !!! 9%nat);
     extra := VStr (join " " (drop 10 cols)) |}.

(** The record of a line read in context [ctx], if it is a rule line that
    the header check does not take. *)
Definition record_in (ctx : option string) (l : string) : option Rule :=
  match ctx with
  | Some c =>
      if rule_line ctx l && negb (header_like l)
      then Some (record_of c (split l)) else None
  | None => None
  end.

(** A rule line with fewer than ten columns that the header check does not
    take. *)
Definition short_rule_line (ctx : option string) (l : string) : bool :=
  rule_line ctx l && negb (header_like l) && (length (split l) <? 10)%nat.

(** The exception a line raises when read in context [ctx], if any. *)
Definition error_in (ctx : option string) (l : string) : option exn :=
  if bad_header l then Some AssertionError
  else if short_rule_line ctx l then Some TypeError
  else None.

(** The records of a listing, line by line, in line order. *)
Definition records (ls : list string) : list Rule :=
  omap id (imap (fun i l => record_in (context_at ls i) l) ls).

(** The exception of the first line that raises one. *)
Definition first_error (ls : list string) : option exn :=
  head (omap id (imap (fun i l => error_in (context_at ls i) l) ls)).

(** The number of rule lines of a listing. *)
Definition rule_line_count (ls : list string) : nat :=
  length (filter (fun b => b = true)
            (imap (fun i l => rule_line (context_at ls i) l) ls)).

(** The record of a rule line read in context [ctx]: one per rule line,
    tagged with the chain of the context. *)
Definition rule_record (ctx : option string) (l : string) : option Rule :=
  match ctx with
  | Some c => if rule_line ctx l then Some (record_of c (split l)) else None
  | None => None
  end.

(** The records of the rule lines of a listing, in line order. *)
Definition rule_records (ls : list string) : list Rule :=
  omap id (imap (fun i l => rule_record (context_at ls i) l) ls).

End Listing.

(** ** What the specification says of a query *)

Module Query.

(** The fields of a rule by name, as the namedtuple has them: the names of
    [RULE_ATTRS], each with the value at its position. *)
Definition fields (r : Rule) : list (string * value) :=
  [("chain", chain r); ("num", num r); ("pkts", pkts r);
   ("bytes", bytes r); ("target", target r); ("prot", prot r);
   ("opt", opt r); ("inp", inp r); ("out", out r); ("source", source r);
   ("destination", destination r); ("extra", extra r)].

(** The value of the field named [param], if [param] names a field. *)
Definition field (r : Rule) (param : string) : option value :=
  (list_to_map (fields r) : gmap string value) !! param.

(** A rule passes one entry of a query when its value of the field that
    the entry names is one of the entry's values. *)
Definition accepts (r : Rule) (entry : string * list value) : bool :=
  match field r entry.1 with
  | Some v => bool_decide (v ∈ entry.2)
  | None => false
  end.

(** A rule matches a query when it passes every entry. *)
Definition matches (query : list (string * list value)) (r : Rule) : bool :=
  forallb (accepts r) query.

End Query.

(** ** What the specification says of a command *)

Module Command.

Import PyStr.

(** The text of a port token after its four-byte prefix, up to the next
    colon. *)
Definition port_value (e : string) : string :=
  (split_pieces ":"%char (drop_chars 4 e)).1.

(** The arguments that one token of [extra] yields. *)
Definition token_args (e : string) : list value :=
  if String.prefix "dpt:" e then [VStr "--dport"; VStr (port_value e)]
  else if String.prefix "spt:" e then [VStr "--sport"; VStr (port_value e)]
  else [].

(** The arguments that a field yields unless it holds [skip]. *)
Definition flag_args (flag : string) (skip : string) (v : value)
  : list value :=
  if bool_decide (v = VStr skip) then [] else [VStr flag; v].

(** The chain is one of the three of [RULE_CHAINS]. *)
Definition valid_chain (r : Rule) : Prop :=
  chain r = VStr "INPUT" \/ chain r = VStr "OUTPUT"
  \/ chain r = VStr "FORWARD".

(** The tokens of [extra] that the translation looks at. *)
Definition extra_words (v : value) : list string :=
  match v with VStr s => split s | _ => [] end.

(** The rule of the specification's example. *)
Definition example_rule : Rule :=
  {| chain := VStr "INPUT"; num := VNone; pkts := VNone; bytes := VNone;
     target := VStr "ACCEPT"; prot := VStr "tcp"; opt := VStr "--";
     inp := VStr "*"; out := VStr "*"; source := VStr "0.0.0.0/0";
     destination := VStr "0.0.0.0/0";
     extra := VStr "tcp dpt:7373 spt:34543" |}.

End Command.

(** ** [Iptables.exe] under threads *)

Module Gate.

(** Where a thread stands with respect to the block
    [with Iptables.lock: out = subprocess.check_output(cmd, ...)] of
    [Iptables.exe(lcmd)]: outside of it; inside, the process not yet
    started; inside, blocked in [check_output] while the process runs;
    inside, the process having exited with some code (the value is about to
    be returned, or [CalledProcessError] to be raised, and the block left
    either way).  When the process cannot be started, [check_output] raises
    [OSError] and the block is left without a process having run. *)
Inductive pc : Type :=
  | Outside
  | Holding (lcmd : list string)
  | Running (lcmd : list string)
  | Exited (lcmd : list string) (code : Z).

Definition is_running (p : pc) : bool :=
  match p with Running _ => true | _ => false end.

(** [threading.RLock]: unowned, or owned by a thread a number of times. *)
Definition rlock : Type := option (nat * nat).

(** [lock.acquire()] by thread [t]: the lock afterwards, or [None] while the
    call has to wait. *)
Definition rlock_acquire (t : nat) (l : rlock) : option rlock :=
  match l with
  | None => Some (Some (t, 1%nat))
  | Some (owner, n) =>
      if bool_decide (owner = t) then Some (Some (t, S n)) else None
  end.

(** [lock.release()] by thread [t], which has to own the lock. *)
Definition rlock_release (t : nat) (l : rlock) : option rlock :=
  match l with
  | Some (owner, S n) =>
      if bool_decide (owner = t)
      then Some (match n with O => None | S _ => Some (owner, n) end)
      else None
  | _ => None
  end.

(** The threads of the process, by number, and the class attribute
    [Iptables.lock]. *)
Record state : Type := mk {
  pcs : nat -> pc;
  lock : rlock
}.

Definition init : state := {| pcs := fun _ => Outside; lock := None |}.

Definition set_pc (s : state) (t : nat) (p : pc) (l : rlock) : state :=
  {| pcs := fun t' => if bool_decide (t' = t) then p else pcs s t';
     lock := l |}.

(** One step of one thread: enter the block of some call [exe(lcmd)],
    listing or mutation, start the process, see it exit, leave the block;
    or leave it because the process could not be started. *)
Inductive step (s : state) : state -> Prop :=
  | step_enter t lcmd l' :
      pcs s t = Outside ->
      rlock_acquire t (lock s) = Some l' ->
      step s (set_pc s t (Holding lcmd) l')
  | step_start t lcmd :
      pcs s t = Holding lcmd ->
      step s (set_pc s t (Running lcmd) (lock s))
  | step_exit t lcmd code :
      pcs s t = Running lcmd ->
      step s (set_pc s t (Exited lcmd code) (lock s))
  | step_leave t lcmd code l' :
      pcs s t = Exited lcmd code ->
      rlock_release t (lock s) = Some l' ->
      step s (set_pc s t Outside l')
  | step_oserror t lcmd l' :
      pcs s t = Holding lcmd ->
      rlock_release t (lock s) = Some l' ->
      step s (set_pc s t Outside l').

(** The states the process can be in. *)
Inductive reachable : state -> Prop :=
  | reachable_init : reachable init
  | reachable_step s s' : reachable s -> step s s' -> reachable s'.

(** A thread inside the block owns the lock once, and the owner of the lock
    is inside the block. *)
Definition lock_inv (s : state) : Prop :=
  (forall t, pcs s t <> Outside -> lock s = Some (t, 1%nat))
  /\ (forall t n, lock s = Some (t, n) -> pcs s t <> Outside).

End Gate.

(** ** Inputs used in the examples *)

Module Samples.

Definition nl : string := String "010"%char EmptyString.

Definition header : string :=
  "num pkts bytes target prot opt in out source destination".

(** Two chains, a blank line between them, one rule each. *)
Definition listing_two_chains : string :=
  "Chain INPUT (policy ACCEPT 0 packets, 0 bytes)" +:+ nl
  +:+ header +:+ nl
  +:+ "1 0 0 ACCEPT tcp -- * * 0.0.0.0/0 0.0.0.0/0 tcp dpt:7373" +:+ nl
  +:+ nl
  +:+ "Chain OUTPUT (policy ACCEPT 0 packets, 0 bytes)" +:+ nl
  +:+ header +:+ nl
  +:+ "1 5 100 DROP all -- eth0 * 1.2.3.4 0.0.0.0/0".

(** A rule line of three columns. *)
Definition listing_short_rule : string :=
  "Chain INPUT (policy ACCEPT)" +:+ nl +:+ "1 2 3".

(** A chain that is not tracked, not preceded by a blank line. *)
Definition listing_untracked_chain : string :=
  "Chain INPUT (policy ACCEPT)" +:+ nl
  +:+ "Chain FOO (0 references)" +:+ nl
  +:+ "1 0 0 ACCEPT tcp -- * * 0.0.0.0/0 0.0.0.0/0".

(** A recognised chain line that holds both words of the header test. *)
Definition listing_chain_with_words : string :=
  "Chain INPUT source destination".

(** A header with one column too many. *)
Definition listing_bad_header : string :=
  "Chain INPUT (policy ACCEPT)" +:+ nl +:+ header +:+ " extra".


(** The example rule with another [extra]. *)
Definition example_rule_other_port : Rule :=
  {| chain := VStr "INPUT"; num := VNone; pkts := VNone; bytes := VNone;
     target := VStr "ACCEPT"; prot := VStr "tcp"; opt := VStr "--";
     inp := VStr "*"; out := VStr "*"; source := VStr "0.0.0.0/0";
     destination := VStr "0.0.0.0/0";
     extra := VStr "tcp dpt:22" |}.

(** Eleven values: the attributes of a rule without its chain. *)
Definition eleven_values : list value :=
  [VStr "1"; VStr "0"; VStr "0"; VStr "ACCEPT"; VStr "tcp"; VStr "--";
   VStr "*"; VStr "*"; VStr "0.0.0.0/0"; VStr "0.0.0.0/0";
   VStr EmptyString].

(** An interpreter in which a rule has no attribute besides its fields. *)
Definition fields_only (_ : Rule) (_ : string) : result Iptables.attribute :=
  Err AttributeError.

(** Thread 0 is blocked in [check_output] for the listing command. *)
Definition listing_running : Gate.state :=
  Gate.set_pc
    (Gate.set_pc Gate.init 0 (Gate.Holding ["-n"; "-L"]) (Some (0, 1)%nat))
    0 (Gate.Running ["-n"; "-L"]) (Some (0, 1)%nat).

End Samples.

(** ** The external tool and the methods that run it *)

Module Exec.

Import PyStr.

(** What [subprocess.check_output(cmd, stderr=subprocess.STDOUT)] meets:
    the process runs and exits with a code, its output captured, or it
    cannot be started ([OSError]). *)
Inductive proc : Type :=
  | Exit (returncode : Z) (output : string)
  | NotStarted.

(** What the methods of this layer raise: an exception of the pure part,
    [subprocess.CalledProcessError] with its [returncode], [cmd] and
    [output], [OSError], or the plain [Exception] with a message. *)
Inductive failure : Type :=
  | Raised (e : exn)
  | CalledProcessError (returncode : Z) (cmd : list string) (output : string)
  | OSError
  | Exception (message : string).

Inductive outcome (A : Type) : Type :=
  | Done (a : A)
  | Fail (f : failure).

Arguments Done {A} a.
Arguments Fail {A} f.

(** A record handed to the module's logger: a debug message, or the error
    message of a failed call, kept as the three values it is formatted
    from. *)
Inductive log_record : Type :=
  | Debug (message : string)
  | Error (returncode : Z) (cmd : list string) (output : string).

(** What the methods change: the calls of [check_output] made so far, with
    their command lines, and the records logged so far. *)
Record world : Type := mkWorld {
  calls : list (list string);
  log : list log_record
}.

Definition add_call (cmd : list string) (w : world) : world :=
  {| calls := calls w ++ [cmd]; log := log w |}.

Definition add_log (r : log_record) (w : world) : world :=
  {| calls := calls w; log := log w ++ [r] |}.

(** A method: from the world before the call to the world after it and
    what the call returned or raised. *)
Definition io (A : Type) : Type := world -> world * outcome A.

Definition ret {A : Type} (a : A) : io A := fun w => (w, Done a).

Definition raise {A : Type} (f : failure) : io A := fun w => (w, Fail f).

Definition io_bind {A B : Type} (m : io A) (k : A -> io B) : io B :=
  fun w =>
    match m w with
    | (w', Done a) => k a w'
    | (w', Fail f) => (w', Fail f)
    end.

Notation "'run' x <- m ; k" := (io_bind m (fun x => k))
  (at level 10, x pattern, m at level 100, k at level 200).

(** A pure computation inside a method. *)
Definition lift {A : Type} (m : result A) : io A :=
  match m with
  | Ok a => ret a
  | Err e => raise (Raised e)
  end.

(** [try: m  except ...: raise h(f)] for the failures that [h] takes. *)
Definition try_except {A : Type} (m : io A) (h : failure -> option failure)
  : io A :=
  fun w =>
    match m w with
    | (w', Fail f) =>
        match h f with
        | Some f' => (w', Fail f')
        | None => (w', Fail f)
        end
    | r => r
    end.

(** The elements of a list as [str], if they all are: what [' '.join] and
    [check_output] need. *)
Fixpoint strs (l : list value) : option (list string) :=
  match l with
  | [] => Some []
  | VStr s :: rest => cons s <$> strs rest
  | _ :: _ => None
  end.

(** ['-' + modify]. *)
Definition minus_plus (modify : value) : result value :=
  match modify with
  | VStr m => Ok (VStr ("-" +:+ m))
  | _ => Err TypeError
  end.

Section process.

(** The class attribute [Iptables.ipt_path]. *)
Variable ipt_path : string.

(** The external tool: what running a command line gives, after the calls
    made before. *)
Variable tool : list (list string) -> list string -> proc.

(** [Iptables.exe(lcmd)].  The debug message joins the command with
    spaces before anything runs, which takes strings only.  The lock is
    taken for the call of [check_output] alone. *)
Definition exe (lcmd : list value) : io string :=
  fun w =>
    let cmd := VStr ipt_path :: lcmd in
    match strs cmd with
    | None => (w, Fail (Raised TypeError))
    | Some cmd =>
        let w := add_log (Debug ("Iptables.exe(): " +:+ join " " cmd)) w in
        match tool (calls w) cmd with
        | Exit returncode out =>
            let w := add_call cmd w in
            if (returncode =? 0)%Z then
              let w :=
                if is_empty out then w
                else add_log (Debug ("Iptables.exe() output: " +:+ out)) w in
              (w, Done out)
            else
              (add_log (Error returncode cmd out) w,
               Fail (CalledProcessError returncode cmd out))
        | NotStarted => (add_call cmd w, Fail OSError)
        end
    end.

(** [Iptables.exe_rule(modify, rule)]. *)
Definition exe_rule (modify : value) (rule : Rule) : io string :=
  run _ <- lift (Iptables.assert
                   (py_eq modify (VStr "I") || py_eq modify (VStr "D")));
  run lcmd <- lift (Iptables.rule_to_command rule);
  run flag <- lift (minus_plus modify);
  exe ([flag] ++ lcmd).

(** [Iptables._iptables_list()] with the call that produces [out]. *)
Definition _iptables_list : io (list Rule) :=
  run out <- exe [VStr "-n"; VStr "-L"; VStr "-v"; VStr "-x";
                  VStr "--line-numbers"];
  lift (Iptables._iptables_list out).

(** [Iptables.__init__(self, rules)], given the name of the calling
    function, [inspect.stack()[1][3]]. *)
Definition __init__ (caller : string) (rules : list Rule) : io Iptables.t :=
  if String.eqb caller "load" then ret (Iptables.mk rules)
  else raise (Exception
         ("Use Iptables.load() to create an instance with loaded "
          +:+ "current list of rules")).

(** [Iptables.load()]. *)
Definition load : io Iptables.t :=
  run rules <- _iptables_list;
  run inst <- __init__ "load" rules;
  ret inst.

(** [Iptables.verify_install()]. *)
Definition verify_install : io unit :=
  try_except
    (run _ <- exe [VStr "-h"]; ret tt)
    (fun f =>
       match f with
       | OSError =>
           Some (Exception
                   ("Could not find " +:+ ipt_path
                    +:+ ". Check if it is correctly installed and if the "
                    +:+ "path is correct."))
       | _ => None
       end).

(** [Iptables.verify_permission()]. *)
Definition verify_permission : io unit :=
  try_except
    (run _ <- exe [VStr "-n"; VStr "-L"; VStr "OUTPUT"]; ret tt)
    (fun f =>
       match f with
       | CalledProcessError _ _ _ =>
           Some (Exception
                   ("No sufficient permission to run " +:+ ipt_path
                    +:+ ". You must be root."))
       | _ => None
       end).

(** [Iptables.verify_original()]. *)
Definition verify_original : io unit := ret tt.

End process.

End Exec.

(** ** From a listing line to a command line *)

Module Pipeline.

Import PyStr Command.

(** A token: at least one byte, none of them whitespace. *)
Definition is_token (w : string) : bool :=
  negb (is_empty w) && forall_chars (fun c => negb (isspace c)) w.

(** The arguments of a column unless it holds [skip]. *)
Definition flag_strs (flag skip x : string) : list string :=
  if String.eqb x skip then [] else [flag; x].

(** The arguments of one column after the tenth. *)
Definition token_strs (e : string) : list string :=
  if String.prefix "dpt:" e then ["--dport"; port_value e]
  else if String.prefix "spt:" e then ["--sport"; port_value e]
  else [].

(** The arguments of the rule that a listing line of columns [cols] shows
    in chain [c]. *)
Definition command_strs (c : string) (cols : list string) : list string :=
  [c] ++ flag_strs "-p" "all" (cols !!! 4%nat)
  ++ concat (token_strs <$> drop 10 cols)
  ++ flag_strs "-d" "0.0.0.0/0" (cols !!! 9%nat)
  ++ flag_strs "-s" "0.0.0.0/0" (cols !!! 8%nat)
  ++ ["-j"; cols !!! 3%nat].

(** A value that is a string holding a token. *)
Definition token_value (v : value) : Prop :=
  exists w, v = VStr w /\ is_token w = true.

End Pipeline.

(** ** A rule as a list and as a dictionary *)

Module Tuple.

(** [list(r)]: the attribute values in the order of [RULE_ATTRS]. *)
Definition Rule_values (r : Rule) : list value :=
  [chain r; num r; pkts r; bytes r; target r; prot r; opt r; inp r; out r;
   source r; destination r; extra r].

(** [r._asdict()]: the attribute values by attribute name. *)
Definition Rule_asdict (r : Rule) : gmap string value :=
  list_to_map (zip RULE_ATTRS (Rule_values r)).

End Tuple.

(** ** More inputs used in the examples *)

Module MoreSamples.

Import Samples.

(** The rule of the first chain of [listing_two_chains]. *)
Definition input_rule : Rule :=
  {| chain := VStr "INPUT"; num := VStr "1"; pkts := VStr "0";
     bytes := VStr "0"; target := VStr "ACCEPT"; prot := VStr "tcp";
     opt := VStr "--"; inp := VStr "*"; out := VStr "*";
     source := VStr "0.0.0.0/0"; destination := VStr "0.0.0.0/0";
     extra := VStr "tcp dpt:7373" |}.

(** The rule of the second chain of [listing_two_chains]. *)
Definition output_rule : Rule :=
  {| chain := VStr "OUTPUT"; num := VStr "1"; pkts := VStr "5";
     bytes := VStr "100"; target := VStr "DROP"; prot := VStr "all";
     opt := VStr "--"; inp := VStr "eth0"; out := VStr "*";
     source := VStr "1.2.3.4"; destination := VStr "0.0.0.0/0";
     extra := VStr EmptyString |}.

(** A tool that prints [listing_two_chains] and exits with 0. *)
Definition listing_tool (_ : list (list string)) (_ : list string)
  : Exec.proc :=
  Exec.Exit 0 listing_two_chains.

(** A tool that refuses every command with code 3. *)
Definition refusing_tool (_ : list (list string)) (_ : list string)
  : Exec.proc :=
  Exec.Exit 3 "iptables: Permission denied".

(** Nothing run and nothing logged yet. *)
Definition fresh : Exec.world := {| Exec.calls := []; Exec.log := [] |}.

End MoreSamples.

(** * Properties *)

(** ** Strings *)

Section string_facts.

Import PyStr.

Lemma prefix_inv (p s : string) :
  String.prefix p s = true -> exists r, s = p +:+ r.
Proof.
  revert s. induction p as [|a p IH]; intros s H.
  - exists s. reflexivity.
  - destruct s as [|b s]; simpl in H; [discriminate|].
    destruct (ascii_dec a b) as [->|]; [|discriminate].
    destruct (IH s H) as [r ->]. exists r. reflexivity.
Qed.

(** A line that starts with the literal [Chain ] has [Chain] as its first
    token. *)
Lemma split_Chain (r : string) :
  exists ws, split ("Chain " +:+ r) = "Chain" :: ws.
Proof.
  change ("Chain " +:+ r)
    with (String "C" (String "h" (String "a" (String "i" (String "n"
            (String " " r)))))).
  unfold split. simpl. destruct (split_words r) as [h t].
  eexists. reflexivity.
Qed.

Lemma re_match_chain_prefix (l w : string) :
  re_match_chain l = Some w -> exists r, l = "Chain " +:+ r.
Proof.
  unfold re_match_chain. intros H.
  destruct (String.prefix "Chain " l) eqn:Hp; [|discriminate].
  apply prefix_inv, Hp.
Qed.

Lemma span_app (p : ascii -> bool) (s w r : string) :
  span p s = (w, r) -> s = w +:+ r /\ forall_chars p w = true.
Proof.
  revert w r. induction s as [|c s IH]; intros w r H; cbn in H.
  - injection H as <- <-. split; reflexivity.
  - destruct (p c) eqn:Hc.
    + destruct (span p s) as [w' r'] eqn:Hs. injection H as <- <-.
      destruct (IH w' r' eq_refl) as [-> Hw]. cbn. rewrite Hc, Hw.
      split; reflexivity.
    + injection H as <- <-. split; reflexivity.
Qed.

Lemma span_stop (p : ascii -> bool) (w : string) (c : ascii) (r : string) :
  forall_chars p w = true -> p c = false ->
  span p (w +:+ String c r) = (w, String c r).
Proof.
  intros Hw Hc. induction w as [|a w IH].
  - change (EmptyString +:+ String c r) with (String c r). cbn.
    rewrite Hc. reflexivity.
  - cbn in Hw. apply andb_prop in Hw as [Ha Hw].
    change (String a w +:+ String c r) with (String a (w +:+ String c r)).
    cbn. rewrite Ha, (IH Hw). reflexivity.
Qed.

(** The model of the pattern agrees with its reading as a regular
    expression: the literal, a non-empty run of word bytes, a space, and
    anything. *)
Lemma re_match_chain_spec (line w : string) :
  re_match_chain line = Some w <->
  w <> EmptyString /\ forall_chars isword w = true
  /\ exists rest, line = "Chain " +:+ w +:+ " " +:+ rest.
Proof.
  unfold re_match_chain. split.
  - intros H. destruct (String.prefix "Chain " line) eqn:Hp; [|discriminate].
    apply prefix_inv in Hp as [tail ->].
    change (drop_chars 6 ("Chain " +:+ tail)) with tail in H.
    destruct (span isword tail) as [w' r] eqn:Hs.
    destruct (is_empty w') eqn:He; [discriminate|].
    destruct (String.prefix " " r) eqn:Hr; [|discriminate].
    cbn in H. injection H as <-.
    apply span_app in Hs as [-> Hw]. apply prefix_inv in Hr as [rest ->].
    split; [intros ->; discriminate|]. split; [exact Hw|].
    exists rest. reflexivity.
  - intros (Hne & Hw & rest & ->).
    change ("Chain " +:+ w +:+ " " +:+ rest)
      with (String "C" (String "h" (String "a" (String "i" (String "n"
              (String " " (w +:+ String " " rest))))))).
    cbn [String.prefix drop_chars].
    repeat (destruct (ascii_dec _ _); [|congruence]).
    replace (String.prefix EmptyString (w +:+ String " " rest)) with true
      by (destruct (w +:+ String " " rest); reflexivity).
    rewrite (span_stop isword w " " rest Hw eq_refl).
    destruct w; [congruence|]. cbn.
    destruct rest; reflexivity.
Qed.

End string_facts.

(** ** The constructor on the parser's columns *)

Section parser_facts.

Import PyStr Iptables Listing.

Lemma numeric_first_not_chain (l : string) :
  numeric_first l = true -> chain_line l = None.
Proof.
  unfold chain_line. intros H.
  destruct (re_match_chain l) as [w|] eqn:Hm; [|reflexivity].
  destruct (re_match_chain_prefix _ _ Hm) as [r ->].
  destruct (split_Chain r) as [ws Hs].
  unfold numeric_first in H. rewrite Hs in H. discriminate.
Qed.


(** Twelve values are needed: the chain, ten columns and the extra. *)
Lemma Rule_new_columns (c : string) (cols : list string) :
  Rule__new__ [PList (VStr <$> rule_columns c cols)] ∅
  = if (length cols <? 10)%nat then Err TypeError
    else Ok (record_of c cols).
Proof.
  do 10 (destruct cols as [|? cols]; [reflexivity|]).
  reflexivity.
Qed.

(** One line of the loop, in the words of the specification. *)
Lemma parse_line_spec (before : list string) (rs : list Rule) (raw : string) :
  parse_line (nearest_context before, rs) raw
  = match error_in (nearest_context before) (strip raw) with
    | Some e => Err e
    | None =>
        Ok (nearest_context (strip raw :: before),
            rs ++ option_list (record_in (nearest_context before) (strip raw)))
    end.
Proof.
  unfold parse_line, error_in, record_in, short_rule_line, rule_line,
    bad_header, assert.
  generalize (strip raw) as l. intros l. cbn [nearest_context].
  pose proof (numeric_first_not_chain l) as Hnc.
  unfold numeric_first in *.
  destruct (is_empty l) eqn:He; cbn [negb andb].
  { destruct (nearest_context before); cbn; rewrite app_nil_r; reflexivity. }
  destruct (chain_line l) as [name|] eqn:Hcl.
  { destruct (split l) as [|c0 cols];
      [|destruct (isdigit c0); [discriminate (Hnc eq_refl)|]];
    repeat case_bool_decide; try congruence;
    destruct (nearest_context before); cbn; rewrite ?andb_false_r; cbn;
      rewrite app_nil_r; reflexivity. }
  destruct (header_like l) eqn:Hh; cbn [negb andb].
  { repeat case_bool_decide; try congruence; cbn; rewrite ?andb_false_r; cbn;
      try reflexivity;
      destruct (nearest_context before); cbn; rewrite app_nil_r; reflexivity. }
  rewrite !andb_true_r.
  destruct (nearest_context before) as [c|] eqn:Hc.
  - destruct (split l) as [|c0 cols] eqn:Hs.
    + repeat case_bool_decide; cbn; rewrite ?app_nil_r; reflexivity.
    + destruct (isdigit c0) eqn:Hd.
      * rewrite Rule_new_columns.
        repeat case_bool_decide; try congruence; cbn [andb];
          try (exfalso; eauto; fail).
        all: destruct (length (c0 :: cols) <? 10)%nat; reflexivity.
      * repeat case_bool_decide; cbn; rewrite ?app_nil_r; reflexivity.
  - rewrite (bool_decide_eq_false_2 (is_Some (@None string)))
      by (intros [? ?]; discriminate).
    repeat case_bool_decide; cbn; rewrite ?app_nil_r; reflexivity.
Qed.

(** The lines after [x] see [x] as one more preceding line. *)
Lemma imap_shift {B : Type} (f : list string -> string -> B)
  (pre : list string) (x : string) (ls : list string) :
  imap ((fun i l => f (pre ++ take i (x :: ls)) l) ∘ S) ls
  = imap (fun i l => f ((pre ++ [x]) ++ take i ls) l) ls.
Proof.
  apply imap_ext. intros i l _. cbn. rewrite <- app_assoc. reflexivity.
Qed.

(** The loop from any point of a listing: [pre] are the lines already
    read. *)
Lemma parse_lines_spec (raws : list string) :
  forall (pre : list string) (rs : list Rule),
  parse_lines (nearest_context (reverse pre), rs) raws
  = match head (omap id (imap (fun i l =>
              error_in
                (nearest_context (reverse (pre ++ take i (strip <$> raws))))
                l)
              (strip <$> raws))) with
    | Some e => Err e
    | None =>
        Ok (nearest_context (reverse (pre ++ (strip <$> raws))),
            rs ++ omap id (imap (fun i l =>
              record_in
                (nearest_context (reverse (pre ++ take i (strip <$> raws))))
                l)
              (strip <$> raws)))
    end.
Proof.
  induction raws as [|raw raws IH]; intros pre rs.
  - cbn. rewrite !app_nil_r. reflexivity.
  - cbn [parse_lines]. rewrite parse_line_spec.
    rewrite fmap_cons, !imap_cons. cbn [take]. rewrite app_nil_r.
    rewrite (imap_shift (fun p l => error_in (nearest_context (reverse p)) l)).
    rewrite (imap_shift (fun p l => record_in (nearest_context (reverse p)) l)).
    cbn [omap list_omap id].
    destruct (error_in (nearest_context (reverse pre)) (strip raw))
      as [e|] eqn:He.
    + reflexivity.
    + cbn [bind]. rewrite <- reverse_snoc. rewrite IH.
      destruct (head _) as [e|]; [reflexivity|].
      rewrite <- (app_assoc pre [strip raw]). cbn [app].
      f_equal. f_equal. rewrite <- app_assoc. f_equal.
      destruct (record_in _ _); reflexivity.
Qed.

(** The parser raises the exception of the first line that raises one, and
    otherwise returns the records of the lines. *)
Lemma _iptables_list_spec (out : string) :
  _iptables_list out
  = match first_error (lines_of out) with
    | Some e => Err e
    | None => Ok (records (lines_of out))
    end.
Proof.
  unfold _iptables_list, first_error, records, context_at, lines_of.
  change (@None string) with (nearest_context (reverse [])).
  rewrite parse_lines_spec. cbn [app].
  destruct (head _); reflexivity.
Qed.

End parser_facts.

(** ** Lists of optional results, by line number *)

Section indexed_facts.

Context {A B : Type}.

Lemma omap_imap_nil (f : nat -> A -> option B) (l : list A) :
  (forall i x, l !! i = Some x -> f i x = None) ->
  omap id (imap f l) = [].
Proof.
  revert f. induction l as [|a l IH]; intros f H; [reflexivity|].
  rewrite imap_cons. cbn [omap list_omap id].
  rewrite (H 0%nat a eq_refl).
  apply IH. intros i x Hi. apply (H (S i)). exact Hi.
Qed.

Lemma omap_imap_ext (f g : nat -> A -> option B) (l : list A) :
  (forall i x, l !! i = Some x -> f i x = g i x) ->
  omap id (imap f l) = omap id (imap g l).
Proof.
  intros H. f_equal. apply imap_ext. exact H.
Qed.

(** Some position has a result, so there is a first one. *)
Lemma head_omap_imap_some (f : nat -> A -> option B) (l : list A)
  (i : nat) (x : A) (b : B) :
  l !! i = Some x -> f i x = Some b ->
  exists j y b', (j <= i)%nat /\ l !! j = Some y /\ f j y = Some b'
    /\ head (omap id (imap f l)) = Some b'.
Proof.
  revert f i. induction l as [|a l IH]; intros f i Hi Hf; [discriminate|].
  rewrite imap_cons. cbn [omap list_omap id].
  destruct (f 0%nat a) as [b0|] eqn:H0.
  - exists 0%nat, a, b0. repeat split; [lia|assumption].
  - destruct i as [|i]; [cbn in Hi; congruence|].
    destruct (IH (f ∘ S) i Hi Hf) as (j & y & b' & Hj & Hy & Hfy & Hh).
    exists (S j), y, b'. repeat split; [lia|assumption..].
Qed.

(** As many results as positions where a test holds, when the test says
    where a result is. *)
Lemma length_omap_imap (f : nat -> A -> option B) (g : nat -> A -> bool)
  (l : list A) :
  (forall i x, l !! i = Some x -> is_Some (f i x) <-> g i x = true) ->
  length (omap id (imap f l))
  = length (filter (fun b => b = true) (imap g l)).
Proof.
  revert f g. induction l as [|a l IH]; intros f g H; [reflexivity|].
  rewrite !imap_cons. cbn [omap list_omap id]. rewrite filter_cons.
  pose proof (H 0%nat a eq_refl) as H0.
  assert (IH' : length (omap id (imap (f ∘ S) l))
                = length (filter (fun b => b = true) (imap (g ∘ S) l))).
  { apply IH. intros i x Hi. apply (H (S i)). exact Hi. }
  destruct (f 0%nat a) as [b|], (g 0%nat a); cbn.
  - rewrite decide_True by reflexivity. cbn. rewrite IH'. reflexivity.
  - destruct H0 as [H0 _]. discriminate H0. eauto.
  - destruct H0 as [_ H0]. destruct (H0 eq_refl). discriminate.
  - rewrite decide_False by discriminate. exact IH'.
Qed.

End indexed_facts.

(** ** Equality of rules *)

Section rule_facts.

Lemma py_eq_true (a b : value) : py_eq a b = true <-> a = b.
Proof. unfold py_eq. apply bool_decide_eq_true. Qed.

(** C1, as amended.  Two rules compare equal exactly when they agree on
    the eight attributes chain, target, prot, opt, inp, out, source and
    destination; [!=] is the negation of [==]; rules that differ only in
    num, pkts, bytes and extra compare equal. *)
Theorem Rule_eq_structural (r1 r2 : Rule) :
  (Rule__eq__ r1 (PRule r2) = true <->
     chain r1 = chain r2 /\ target r1 = target r2 /\ prot r1 = prot r2
     /\ opt r1 = opt r2 /\ inp r1 = inp r2 /\ out r1 = out r2
     /\ source r1 = source r2 /\ destination r1 = destination r2)
  /\ Rule__ne__ r1 (PRule r2) = negb (Rule__eq__ r1 (PRule r2))
  /\ (forall n p b e : value,
        Rule__eq__ r1
          (PRule {| chain := chain r1; num := n; pkts := p; bytes := b;
                    target := target r1; prot := prot r1; opt := opt r1;
                    inp := inp r1; out := out r1; source := source r1;
                    destination := destination r1; extra := e |}) = true).
Proof.
  split; [|split].
  - unfold Rule__eq__. rewrite !andb_true_iff, !py_eq_true. tauto.
  - reflexivity.
  - intros n p b e. unfold Rule__eq__. cbn.
    rewrite !andb_true_iff, !py_eq_true. tauto.
Qed.

(** C9.  For a rule [r] and an object [o] that is no rule, [r == o] is
    false and [r != o] is true. *)
Theorem Rule_eq_other (r : Rule) (o : pyobj) :
  is_Rule o = false -> Rule__eq__ r o = false /\ Rule__ne__ r o = true.
Proof.
  intros H. unfold Rule__ne__. destruct o; try discriminate; split; reflexivity.
Qed.

Lemma dom_Rule_defaults : dom Rule_defaults = list_to_set RULE_ATTRS.
Proof. unfold Rule_defaults. rewrite dom_list_to_map_L. reflexivity. Qed.

Lemma lookup_with_default (props : gmap string value) (k : string) (v : value) :
  Rule_defaults !! k = Some v ->
  (props ∪ Rule_defaults) !! k = Some (default v (props !! k)).
Proof.
  intros H. rewrite lookup_union, H. destruct (props !! k); reflexivity.
Qed.

Lemma RuleProto_new_kwargs_defaults (props : gmap string value) :
  dom props ⊆ list_to_set RULE_ATTRS ->
  RuleProto_new_kwargs (props ∪ Rule_defaults)
  = Ok {| chain := default VNone (props !! "chain");
          num := default VNone (props !! "num");
          pkts := default VNone (props !! "pkts");
          bytes := default VNone (props !! "bytes");
          target := default VNone (props !! "target");
          prot := default (VStr "all") (props !! "prot");
          opt := default (VStr "--") (props !! "opt");
          inp := default (VStr "*") (props !! "inp");
          out := default (VStr "*") (props !! "out");
          source := default (VStr "0.0.0.0/0") (props !! "source");
          destination := default (VStr "0.0.0.0/0") (props !! "destination");
          extra := default (VStr EmptyString) (props !! "extra") |}.
Proof.
  intros Hdom. unfold RuleProto_new_kwargs.
  rewrite bool_decide_eq_true_2.
  2:{ rewrite dom_union_L, dom_Rule_defaults.
      apply union_subseteq. split; [exact Hdom|reflexivity]. }
  unfold lookup_attrs.
  rewrite (lookup_with_default props "chain" VNone) by reflexivity.
  rewrite (lookup_with_default props "num" VNone) by reflexivity.
  rewrite (lookup_with_default props "pkts" VNone) by reflexivity.
  rewrite (lookup_with_default props "bytes" VNone) by reflexivity.
  rewrite (lookup_with_default props "target" VNone) by reflexivity.
  rewrite (lookup_with_default props "prot" (VStr "all")) by reflexivity.
  rewrite (lookup_with_default props "opt" (VStr "--")) by reflexivity.
  rewrite (lookup_with_default props "inp" (VStr "*")) by reflexivity.
  rewrite (lookup_with_default props "out" (VStr "*")) by reflexivity.
  rewrite (lookup_with_default props "source" (VStr "0.0.0.0/0"))
    by reflexivity.
  rewrite (lookup_with_default props "destination" (VStr "0.0.0.0/0"))
    by reflexivity.
  rewrite (lookup_with_default props "extra" (VStr EmptyString))
    by reflexivity.
  reflexivity.
Qed.

Lemma attrs_lookup (d : gmap string value) :
  dom d = list_to_set RULE_ATTRS ->
  forall k, k ∈ RULE_ATTRS -> d !! k = Some (d !!! k).
Proof.
  intros Hdom k Hk.
  assert (Hin : k ∈ dom d) by (rewrite Hdom; apply elem_of_list_to_set, Hk).
  apply elem_of_dom in Hin as [v Hv].
  rewrite lookup_total_alt, Hv. reflexivity.
Qed.

Lemma RuleProto_new_kwargs_exact (d : gmap string value) :
  dom d = list_to_set RULE_ATTRS ->
  RuleProto_new_kwargs d
  = Ok {| chain := d !!! "chain"; num := d !!! "num"; pkts := d !!! "pkts";
          bytes := d !!! "bytes"; target := d !!! "target";
          prot := d !!! "prot"; opt := d !!! "opt"; inp := d !!! "inp";
          out := d !!! "out"; source := d !!! "source";
          destination := d !!! "destination"; extra := d !!! "extra" |}.
Proof.
  intros Hdom. unfold RuleProto_new_kwargs.
  rewrite bool_decide_eq_true_2 by (rewrite Hdom; reflexivity).
  unfold lookup_attrs.
  rewrite !(attrs_lookup d Hdom)
    by (unfold RULE_ATTRS;
        repeat first [apply list_elem_of_here|apply list_elem_of_further]).
  reflexivity.
Qed.

Lemma lookup_attrs_dom (d : gmap string value) (r : Rule) :
  lookup_attrs d = Some r -> list_to_set RULE_ATTRS ⊆ dom d.
Proof.
  unfold lookup_attrs. intros H.
  repeat match type of H with
         | (?o ≫= _) = Some _ =>
             let E := fresh "E" in
             destruct o eqn:E; [cbn in H|discriminate]
         end.
  intros k Hk. apply elem_of_list_to_set in Hk. apply elem_of_dom.
  unfold RULE_ATTRS in Hk.
  repeat (apply elem_of_cons in Hk as [->|Hk]; [eauto|]).
  apply elem_of_nil in Hk. contradiction.
Qed.

Lemma RuleProto_new_kwargs_other (d : gmap string value) :
  dom d ≠ list_to_set RULE_ATTRS -> RuleProto_new_kwargs d = Err TypeError.
Proof.
  intros Hdom. unfold RuleProto_new_kwargs.
  case_bool_decide as Hsub; [|reflexivity].
  destruct (lookup_attrs d) as [r|] eqn:Hr; [|reflexivity].
  exfalso. apply Hdom. apply set_eq. intros k. split; intros Hk.
  - apply Hsub, Hk.
  - apply (lookup_attrs_dom d r Hr), Hk.
Qed.

(** C7, as amended.  The constructor returns a rule for one positional
    list of the twelve attribute values (the chain first), assigned in
    order; for one positional dictionary whose keys are attribute names,
    where a missing attribute takes its default ([None] for chain, num,
    pkts, bytes, target; "all", "--", "*", "*", "0.0.0.0/0", "0.0.0.0/0"
    and the empty string for the others); and, without positional
    arguments, for keywords that name exactly the twelve attributes.  A
    list of another length, a dictionary with another key, other keywords
    and no argument at all raise [TypeError]; one positional argument that
    is neither list nor dictionary, and two or more positional arguments,
    raise [ValueError]. *)
Theorem Rule_new_shapes :
  (forall (c n p b t pr o i ou s d e : value) (kwargs : gmap string value),
      Rule__new__ [PList [c; n; p; b; t; pr; o; i; ou; s; d; e]] kwargs
      = Ok (mkRule c n p b t pr o i ou s d e))
  /\ (forall (props : list value) (kwargs : gmap string value),
      length props <> 12%nat ->
      Rule__new__ [PList props] kwargs = Err TypeError)
  /\ (forall (props kwargs : gmap string value),
      dom props ⊆ list_to_set RULE_ATTRS ->
      Rule__new__ [PDict props] kwargs
      = Ok {| chain := default VNone (props !! "chain");
              num := default VNone (props !! "num");
              pkts := default VNone (props !! "pkts");
              bytes := default VNone (props !! "bytes");
              target := default VNone (props !! "target");
              prot := default (VStr "all") (props !! "prot");
              opt := default (VStr "--") (props !! "opt");
              inp := default (VStr "*") (props !! "inp");
              out := default (VStr "*") (props !! "out");
              source := default (VStr "0.0.0.0/0") (props !! "source");
              destination :=
                default (VStr "0.0.0.0/0") (props !! "destination");
              extra := default (VStr EmptyString) (props !! "extra") |})
  /\ (forall (props kwargs : gmap string value),
      ¬ dom props ⊆ list_to_set RULE_ATTRS ->
      Rule__new__ [PDict props] kwargs = Err TypeError)
  /\ (forall kwargs : gmap string value,
      dom kwargs = list_to_set RULE_ATTRS ->
      Rule__new__ [] kwargs
      = Ok {| chain := kwargs !!! "chain"; num := kwargs !!! "num";
              pkts := kwargs !!! "pkts"; bytes := kwargs !!! "bytes";
              target := kwargs !!! "target"; prot := kwargs !!! "prot";
              opt := kwargs !!! "opt"; inp := kwargs !!! "inp";
              out := kwargs !!! "out"; source := kwargs !!! "source";
              destination := kwargs !!! "destination";
              extra := kwargs !!! "extra" |})
  /\ (forall kwargs : gmap string value,
      dom kwargs <> list_to_set RULE_ATTRS ->
      Rule__new__ [] kwargs = Err TypeError)
  /\ (forall (o : pyobj) (kwargs : gmap string value),
      is_list_or_dict o = false -> Rule__new__ [o] kwargs = Err ValueError)
  /\ (forall (o1 o2 : pyobj) (rest : list pyobj) (kwargs : gmap string value),
      Rule__new__ (o1 :: o2 :: rest) kwargs = Err ValueError).
Proof.
  repeat split.
  - intros props kwargs Hlen. cbn.
    do 13 (destruct props as [|? props]; [try reflexivity; cbn in Hlen; lia|]).
    reflexivity.
  - intros props kwargs Hdom. cbn.
    apply RuleProto_new_kwargs_defaults, Hdom.
  - intros props kwargs Hdom. cbn. unfold RuleProto_new_kwargs.
    rewrite bool_decide_eq_false_2; [reflexivity|].
    intros Hsub. apply Hdom. etrans; [|exact Hsub].
    rewrite dom_union_L. apply union_subseteq_l.
  - intros kwargs Hdom. cbn.
    rewrite bool_decide_eq_true_2.
    + apply RuleProto_new_kwargs_exact, Hdom.
    + intros ->. rewrite dom_empty_L in Hdom.
      assert (H : "chain" ∈ (∅ : gset string)).
      { rewrite Hdom. apply elem_of_list_to_set, list_elem_of_here. }
      apply elem_of_empty in H. exact H.
  - intros kwargs Hdom. cbn.
    case_bool_decide; [|reflexivity].
    apply RuleProto_new_kwargs_other, Hdom.
  - intros o kwargs Ho. destruct o; try discriminate; reflexivity.
Qed.

End rule_facts.

(** ** The parser on whole listings *)

Section listing_facts.

Import PyStr Iptables Listing.

Lemma rule_line_numeric (ctx : option string) (l : string) :
  rule_line ctx l = true ->
  is_Some ctx /\ is_empty l = false /\ numeric_first l = true.
Proof.
  unfold rule_line. intros H.
  apply andb_prop in H as [H Hn]. apply andb_prop in H as [Hc He].
  apply bool_decide_eq_true_1 in Hc. apply negb_true_iff in He. auto.
Qed.

Lemma headers_not_numeric (l : string) :
  split l = IPTABLES_HEADERS -> numeric_first l = false.
Proof. unfold numeric_first. intros ->. reflexivity. Qed.

(** A rule line is not taken by the header check, unless that check fails. *)
Lemma rule_line_not_header (ctx : option string) (l : string) :
  bad_header l = false -> rule_line ctx l = true -> header_like l = false.
Proof.
  intros Hb Hr. apply rule_line_numeric in Hr as (_ & He & Hn).
  destruct (header_like l) eqn:Hh; [|reflexivity].
  unfold bad_header in Hb.
  rewrite He, Hh, (numeric_first_not_chain _ Hn) in Hb.
  rewrite bool_decide_eq_true_2 in Hb by reflexivity. cbn in Hb.
  apply bool_decide_eq_false_1 in Hb.
  destruct (decide (split l = IPTABLES_HEADERS)) as [Heq|Hne]; [|tauto].
  rewrite (headers_not_numeric _ Heq) in Hn. discriminate.
Qed.

Lemma record_in_rule_record (ctx : option string) (l : string) :
  bad_header l = false -> record_in ctx l = rule_record ctx l.
Proof.
  intros Hb. unfold record_in, rule_record.
  destruct ctx as [c|]; [|reflexivity].
  destruct (rule_line (Some c) l) eqn:Hr; [|reflexivity].
  rewrite (rule_line_not_header _ _ Hb Hr). reflexivity.
Qed.

Lemma rule_record_is_Some (ctx : option string) (l : string) :
  is_Some (rule_record ctx l) <-> rule_line ctx l = true.
Proof.
  unfold rule_record. destruct ctx as [c|].
  - destruct (rule_line (Some c) l); split; intros H; eauto; try discriminate.
    destruct H; discriminate.
  - unfold rule_line. rewrite bool_decide_eq_false_2.
    + split; [intros [? ?]; discriminate|discriminate].
    + intros [? ?]; discriminate.
Qed.

(** How the context moves from a line to the next one. *)
Lemma context_at_S (ls : list string) (i : nat) (l : string) :
  ls !! i = Some l ->
  context_at ls (S i)
  = if is_empty l then None
    else match chain_line l with
         | Some name => Some name
         | None => context_at ls i
         end.
Proof.
  intros Hl. unfold context_at.
  rewrite (take_S_r _ _ _ Hl), reverse_snoc. reflexivity.
Qed.

Lemma error_in_cases (ctx : option string) (l : string) (e : exn) :
  error_in ctx l = Some e ->
  (bad_header l = true /\ e = AssertionError)
  \/ (bad_header l = false /\ short_rule_line ctx l = true /\ e = TypeError).
Proof.
  unfold error_in. destruct (bad_header l).
  - intros [= <-]. left. auto.
  - destruct (short_rule_line ctx l); [|discriminate].
    intros [= <-]. right. auto.
Qed.

(** C2, as amended.  When no line fails the header check and every rule
    line (a non-blank line read in a chain context whose first token is
    numeric) has at least ten columns, the parser returns exactly the
    records of the rule lines, in line order and as many as there are rule
    lines, each tagged with the chain of the context of its line, its first
    ten columns as num .. destination and the remaining ones joined by
    single spaces as extra.  No context is set at the first line; a blank
    line ends the context, a recognised chain line sets it, and any other
    line, also one that names another chain, leaves it as it is.  Lines read
    without a context give no record. *)
Theorem iptables_list_rule_lines (out : string) :
  (forall l, l ∈ lines_of out -> bad_header l = false) ->
  (forall i l, lines_of out !! i = Some l ->
     rule_line (context_at (lines_of out) i) l = true ->
     (10 <= length (split l))%nat) ->
  _iptables_list out = Ok (rule_records (lines_of out))
  /\ length (rule_records (lines_of out)) = rule_line_count (lines_of out)
  /\ context_at (lines_of out) 0 = None
  /\ (forall i l, lines_of out !! i = Some l ->
        context_at (lines_of out) (S i)
        = if is_empty l then None
          else match chain_line l with
               | Some name => Some name
               | None => context_at (lines_of out) i
               end).
Proof.
  intros Hhead Hcols. set (ls := lines_of out) in *.
  assert (Hb : forall i l, ls !! i = Some l -> bad_header l = false).
  { intros i l Hl. apply Hhead. eapply list_elem_of_lookup_2, Hl. }
  repeat split.
  - rewrite _iptables_list_spec. fold ls.
    unfold first_error, records, rule_records.
    rewrite omap_imap_nil.
    + cbn. f_equal. apply omap_imap_ext. intros i l Hl.
      apply record_in_rule_record. eauto.
    + intros i l Hl. unfold error_in. rewrite (Hb i l Hl).
      unfold short_rule_line.
      destruct (rule_line (context_at ls i) l) eqn:Hr; [|reflexivity].
      pose proof (Hcols i l Hl Hr) as Hlen.
      rewrite (proj2 (Nat.ltb_ge _ _) Hlen), andb_false_r. reflexivity.
  - unfold rule_records, rule_line_count. apply length_omap_imap.
    intros i l _. apply rule_record_is_Some.
  - intros i l Hl. apply context_at_S, Hl.
Qed.

(** C5, as amended.  When some stripped line of the listing is not blank,
    is no recognised chain line, contains both "source" and "destination"
    and does not split into exactly the expected columns, the parser raises
    and returns no rules: it raises [AssertionError], unless an earlier rule
    line with fewer than ten columns has raised [TypeError] already. *)
Theorem iptables_list_bad_header (out : string) (i : nat) (l : string) :
  lines_of out !! i = Some l ->
  bad_header l = true ->
  exists e, _iptables_list out = Err e
    /\ (e = AssertionError \/ e = TypeError)
    /\ ((forall j l', (j < i)%nat -> lines_of out !! j = Some l' ->
           short_rule_line (context_at (lines_of out) j) l' = false) ->
        e = AssertionError).
Proof.
  intros Hl Hb. set (ls := lines_of out) in *.
  destruct (head_omap_imap_some
              (fun j y => error_in (context_at ls j) y) ls i l
              AssertionError Hl)
    as (j & y & e & Hj & Hy & He & Hh).
  { unfold error_in. rewrite Hb. reflexivity. }
  exists e. rewrite _iptables_list_spec. fold ls. unfold first_error.
  rewrite Hh. split; [reflexivity|].
  apply error_in_cases in He as [[_ ->]|(Hyb & Hs & ->)].
  - split; [left; reflexivity|reflexivity].
  - split; [right; reflexivity|]. intros Hshort.
    destruct (decide (j = i)) as [->|Hne].
    + congruence.
    + rewrite (Hshort j y) in Hs by (lia || assumption). discriminate.
Qed.


End listing_facts.

(** ** The command of a rule *)

Section command_facts.

Import PyStr Iptables Command.

Lemma slice4_prefix (e p : string) :
  String.length p = 4%nat ->
  String.eqb (slice_to 4 e) p = String.prefix p e.
Proof.
  intros Hp.
  destruct p as [|p0 [|p1 [|p2 [|p3 [|? ?]]]]]; try discriminate.
  destruct e as [|e0 [|e1 [|e2 [|e3 e]]]]; cbn;
    repeat match goal with
           | |- context [ascii_dec ?a ?b] => destruct (ascii_dec a b)
           end; subst;
    rewrite ?Ascii.eqb_refl; try reflexivity;
    repeat match goal with
           | |- context [Ascii.eqb ?a ?b] =>
               destruct (Ascii.eqb_spec a b); try congruence
           end; try reflexivity.
  all: destruct e; reflexivity.
Qed.

Lemma extra_token_spec (lcmd : list value) (e : string) :
  extra_token lcmd e = Ok (lcmd ++ token_args e).
Proof.
  unfold extra_token, token_args.
  rewrite !slice4_prefix by reflexivity.
  destruct (String.prefix "dpt:" e) eqn:Hd.
  - apply prefix_inv in Hd as [r ->].
    change ("dpt:" +:+ r)
      with (String "d" (String "p" (String "t" (String ":" r)))).
    unfold port_value, split_on. cbn.
    destruct (split_pieces ":" r) as [h t]. reflexivity.
  - cbn [bind]. destruct (String.prefix "spt:" e) eqn:Hs.
    + apply prefix_inv in Hs as [r ->].
      change ("spt:" +:+ r)
        with (String "s" (String "p" (String "t" (String ":" r)))).
      unfold port_value, split_on. cbn.
      destruct (split_pieces ":" r) as [h t]. reflexivity.
    + rewrite app_nil_r. reflexivity.
Qed.

Lemma extra_tokens_spec (es : list string) :
  forall lcmd, extra_tokens lcmd es = Ok (lcmd ++ concat (token_args <$> es)).
Proof.
  induction es as [|e es IH]; intros lcmd; cbn.
  - rewrite app_nil_r. reflexivity.
  - rewrite extra_token_spec. cbn [bind]. rewrite IH, <- app_assoc.
    reflexivity.
Qed.

Lemma py_ne_flag (flag skip : string) (v : value) (lcmd : list value) :
  (if py_ne v (VStr skip) then lcmd ++ [VStr flag; v] else lcmd)
  = lcmd ++ flag_args flag skip v.
Proof.
  unfold py_ne, py_eq, flag_args. case_bool_decide; cbn.
  - rewrite app_nil_r. reflexivity.
  - reflexivity.
Qed.

Lemma assert_chain (r : Rule) :
  assert (py_eq (chain r) (VStr "INPUT") || py_eq (chain r) (VStr "OUTPUT")
          || py_eq (chain r) (VStr "FORWARD"))
  = if decide (valid_chain r) then Ok tt else Err AssertionError.
Proof.
  unfold valid_chain, py_eq, assert.
  destruct (decide _) as [H|H]; repeat case_bool_decide; cbn; try reflexivity;
    tauto.
Qed.

(** The arguments, part by part, for a rule whose [extra] is a string or is
    false as a condition. *)
Lemma rule_to_command_parts (r : Rule) :
  valid_chain r ->
  (forall z, extra r = VInt z -> z = 0%Z) ->
  rule_to_command r
  = Ok ([chain r] ++ flag_args "-p" "all" (prot r)
        ++ concat (token_args <$> extra_words (extra r))
        ++ flag_args "-d" "0.0.0.0/0" (destination r)
        ++ flag_args "-s" "0.0.0.0/0" (source r)
        ++ [VStr "-j"; target r]).
Proof.
  intros Hc Hx. unfold rule_to_command.
  rewrite assert_chain, decide_True by assumption. cbn [bind]. cbv zeta.
  rewrite app_nil_l, !py_ne_flag.
  assert (Hextra :
    (if truthy (extra r)
     then match extra r with
          | VStr s => extra_tokens ([chain r] ++ flag_args "-p" "all" (prot r))
                        (split s)
          | _ => Err AttributeError
          end
     else Ok ([chain r] ++ flag_args "-p" "all" (prot r)))
    = Ok (([chain r] ++ flag_args "-p" "all" (prot r))
          ++ concat (token_args <$> extra_words (extra r)))).
  { destruct (extra r) as [|s|z] eqn:He; cbn.
    - rewrite app_nil_r. reflexivity.
    - destruct s as [|a s]; cbn [String.eqb negb].
      + cbn. rewrite app_nil_r. reflexivity.
      + apply extra_tokens_spec.
    - rewrite (Hx z eq_refl). cbn. rewrite app_nil_r. reflexivity. }
  rewrite Hextra. cbn [bind]. rewrite !py_ne_flag. f_equal.
  rewrite <- !app_assoc. reflexivity.
Qed.

(** C4.  The rule of the example gives exactly INPUT -p tcp --dport 7373
    --sport 34543 -j ACCEPT.  With source and destination both the wildcard
    the list consists of the chain, the protocol part, the port arguments
    and [-j target] only, so neither [-s] nor [-d] is emitted; a token of
    extra that starts with neither [dpt:] nor [spt:] contributes nothing;
    and the list always ends with [-j] and the target. *)
Theorem rule_to_command_example :
  rule_to_command example_rule
  = Ok [VStr "INPUT"; VStr "-p"; VStr "tcp"; VStr "--dport"; VStr "7373";
        VStr "--sport"; VStr "34543"; VStr "-j"; VStr "ACCEPT"]
  /\ (forall r : Rule,
        valid_chain r ->
        (forall z, extra r = VInt z -> z = 0%Z) ->
        source r = VStr "0.0.0.0/0" ->
        destination r = VStr "0.0.0.0/0" ->
        rule_to_command r
        = Ok ([chain r] ++ flag_args "-p" "all" (prot r)
              ++ concat (token_args <$> extra_words (extra r))
              ++ [VStr "-j"; target r]))
  /\ (forall e : string,
        String.prefix "dpt:" e = false -> String.prefix "spt:" e = false ->
        token_args e = [])
  /\ (forall r : Rule,
        valid_chain r ->
        (forall z, extra r = VInt z -> z = 0%Z) ->
        exists args, rule_to_command r = Ok (args ++ [VStr "-j"; target r]))
  /\ (forall (r : Rule) (lcmd : list value),
        rule_to_command r = Ok lcmd ->
        exists args, lcmd = args ++ [VStr "-j"; target r]).
Proof.
  split; [reflexivity|]. split; [|split; [|split]].
  - intros r Hc Hx Hs Hd. rewrite rule_to_command_parts by assumption.
    rewrite Hs, Hd. reflexivity.
  - intros e Hd Hs. unfold token_args. rewrite Hd, Hs. reflexivity.
  - intros r Hc Hx. rewrite rule_to_command_parts by assumption.
    eexists. rewrite !app_assoc. reflexivity.
  - intros r lcmd Hok.
    destruct (decide (valid_chain r)) as [Hc|Hc].
    + assert (Hx : (forall z, extra r = VInt z -> z = 0%Z)
                   \/ exists z, extra r = VInt z /\ z <> 0%Z).
      { destruct (extra r) as [|s|z]; try (left; discriminate).
        destruct (decide (z = 0%Z)) as [->|Hnz].
        - left. intros z [= <-]. reflexivity.
        - right. eauto. }
      destruct Hx as [Hx|(z & Hz & Hnz)].
      * rewrite rule_to_command_parts in Hok by assumption.
        injection Hok as <-. eexists (chain r :: _). cbn [app].
        rewrite !app_assoc. reflexivity.
      * exfalso. unfold rule_to_command in Hok.
        rewrite assert_chain, decide_True in Hok by assumption.
        cbn [bind] in Hok. rewrite Hz in Hok. cbn [truthy] in Hok.
        rewrite (proj2 (Z.eqb_neq z 0) Hnz) in Hok. discriminate Hok.
    + exfalso. unfold rule_to_command in Hok.
      rewrite assert_chain, decide_False in Hok by assumption.
      discriminate Hok.
Qed.

(** C6.  For a rule whose chain is none of INPUT, OUTPUT, FORWARD the
    command builder raises [AssertionError], its validation error; for a
    rule whose chain is one of the three it does not raise that error. *)
Theorem rule_to_command_chain_check (r : Rule) :
  (¬ valid_chain r -> rule_to_command r = Err AssertionError)
  /\ (valid_chain r -> rule_to_command r <> Err AssertionError).
Proof.
  unfold rule_to_command. rewrite assert_chain. split; intros Hc.
  - rewrite decide_False by assumption. reflexivity.
  - rewrite decide_True by assumption. cbn [bind]. cbv zeta.
    destruct (truthy (extra r)); [destruct (extra r)|]; cbn [bind];
      try discriminate.
    rewrite extra_tokens_spec. discriminate.
Qed.

End command_facts.

(** ** Queries *)

Section query_facts.

Import Iptables.

Variable other_attribute : Rule -> string -> result attribute.

Lemma py_in_elem_of (v : value) (vals : list value) :
  py_in v vals = bool_decide (v ∈ vals).
Proof.
  unfold py_in. induction vals as [|w vals IH]; cbn.
  - rewrite bool_decide_eq_false_2; [reflexivity|]. apply not_elem_of_nil.
  - rewrite IH. unfold py_eq.
    destruct (decide (v = w)) as [->|Hne].
    + rewrite (bool_decide_eq_true_2 (w = w)) by reflexivity.
      cbn. symmetry. apply bool_decide_eq_true_2, list_elem_of_here.
    + rewrite (bool_decide_eq_false_2 (v = w)) by assumption. cbn.
      apply bool_decide_ext. rewrite elem_of_cons. tauto.
Qed.

Lemma fields_NoDup (r : Rule) : NoDup (Query.fields r).*1.
Proof. apply (bool_decide_unpack _). vm_compute. exact I. Qed.

Lemma field_elem_of (r : Rule) (param : string) (v : value) :
  Query.field r param = Some v <-> (param, v) ∈ Query.fields r.
Proof.
  unfold Query.field. symmetry.
  apply elem_of_list_to_map, fields_NoDup.
Qed.

(** On the name of a field, [getattr] gives the value of that field. *)
Lemma getattr_field (r : Rule) (param : string) :
  param ∈ RULE_ATTRS ->
  exists v, getattr other_attribute r param = Ok (AttrValue v)
            /\ Query.field r param = Some v.
Proof.
  unfold RULE_ATTRS. intros H. destruct r.
  repeat (apply elem_of_cons in H as [->|H];
          [eexists; split; reflexivity|]).
  apply elem_of_nil in H. contradiction.
Qed.

Lemma matched_all_spec (r : Rule) (query : list (string * list value)) :
  (forall param vals, (param, vals) ∈ query -> param ∈ RULE_ATTRS) ->
  matched_all other_attribute r query = Ok (Query.matches query r).
Proof.
  induction query as [|[param vals] query IH]; intros Hq; [reflexivity|].
  cbn [matched_all]. unfold Query.matches. cbn [forallb].
  unfold Query.accepts at 1. cbn [fst snd].
  destruct (getattr_field r param) as (v & Hv & Hf).
  { apply (Hq param vals), list_elem_of_here. }
  rewrite Hv, Hf. cbn [bind attr_in]. rewrite py_in_elem_of.
  destruct (bool_decide (v ∈ vals)); cbn; [|reflexivity].
  apply IH. intros p vs Hin. apply (Hq p vs), list_elem_of_further, Hin.
Qed.

Lemma find_loop_spec (query : list (string * list value)) (rs : list Rule) :
  (forall param vals, (param, vals) ∈ query -> param ∈ RULE_ATTRS) ->
  forall ret,
    find_loop other_attribute rs query ret
    = Ok (ret ++ List.filter (Query.matches query) rs).
Proof.
  intros Hq. induction rs as [|r rs IH]; intros ret; cbn.
  - rewrite app_nil_r. reflexivity.
  - rewrite (matched_all_spec r query Hq). cbn [bind]. rewrite IH.
    destruct (Query.matches query r); [rewrite <- app_assoc|]; reflexivity.
Qed.

Lemma matches_iff (query : list (string * list value)) (r : Rule) :
  Query.matches query r = true <->
  forall param vals, (param, vals) ∈ query ->
    exists v, (param, v) ∈ Query.fields r /\ v ∈ vals.
Proof.
  unfold Query.matches. rewrite forallb_forall. split.
  - intros H param vals Hin. apply list_elem_of_In in Hin.
    specialize (H (param, vals) Hin).
    unfold Query.accepts in H. cbn [fst snd] in H.
    destruct (Query.field r param) as [v|] eqn:Hf; [|discriminate H].
    exists v. split; [apply field_elem_of, Hf|].
    apply bool_decide_eq_true in H. exact H.
  - intros H [param vals] Hin. apply list_elem_of_In in Hin.
    destruct (H param vals Hin) as (v & Hv & Hvals).
    unfold Query.accepts. cbn [fst snd]. apply field_elem_of in Hv.
    rewrite Hv.
    apply bool_decide_eq_true_2, Hvals.
Qed.

(** C3.  For a query whose keys are field names, [find] returns the rules
    of the snapshot that match the query, in their order, and leaves the
    instance as it was.  A rule matches when, for every entry of the query,
    the value of the field that the entry names is one of the entry's
    values, where the fields of a rule are chain, num, pkts, bytes, target,
    prot, opt, inp, out, source, destination and extra, each under its own
    name.  The empty query returns every rule. *)
Theorem find_spec (self : Iptables.t) (query : list (string * list value)) :
  (forall param vals, (param, vals) ∈ query -> param ∈ RULE_ATTRS) ->
  find other_attribute self query
  = (self, Ok (List.filter (Query.matches query) (rules self)))
  /\ (forall r : Rule,
        Query.matches query r = true <->
        forall param vals, (param, vals) ∈ query ->
          exists v, (param, v) ∈ Query.fields r /\ v ∈ vals)
  /\ (forall r : Rule,
        Query.fields r
        = [("chain", chain r); ("num", num r); ("pkts", pkts r);
           ("bytes", bytes r); ("target", target r); ("prot", prot r);
           ("opt", opt r); ("inp", inp r); ("out", out r);
           ("source", source r); ("destination", destination r);
           ("extra", extra r)])
  /\ find other_attribute self [] = (self, Ok (rules self)).
Proof.
  intros Hq. split; [|split; [|split]].
  - unfold find. rewrite (find_loop_spec query (rules self) Hq). reflexivity.
  - intros r. apply matches_iff.
  - intros r. reflexivity.
  - unfold find. rewrite (find_loop_spec [] (rules self)).
    + cbn. f_equal. f_equal.
      induction (rules self) as [|r rs IH]; cbn; congruence.
    + intros param vals H. apply elem_of_nil in H. contradiction.
Qed.

End query_facts.

(** ** One external process at a time *)

Section gate_facts.

Import Gate.

Lemma lock_inv_init : lock_inv init.
Proof.
  split.
  - intros t H. cbn in H. congruence.
  - intros t n H. discriminate.
Qed.

Lemma lock_inv_step (s s' : state) : lock_inv s -> step s s' -> lock_inv s'.
Proof.
  intros [Hin Hown] Hstep.
  destruct Hstep as [t lcmd l' Hpc Hacq|t lcmd Hpc|t lcmd code Hpc
                    |t lcmd code l' Hpc Hrel|t lcmd l' Hpc Hrel].
  - (* enter *)
    unfold rlock_acquire in Hacq.
    destruct (lock s) as [[owner n]|] eqn:Hl.
    + exfalso. apply (Hown owner n eq_refl).
      case_bool_decide; [subst; exact Hpc|discriminate].
    + injection Hacq as <-. split; cbn.
      * intros t' Ht'. case_bool_decide; [subst; reflexivity|].
        specialize (Hin t' Ht'). discriminate.
      * intros t' n [= <- <-]. rewrite bool_decide_eq_true_2 by reflexivity.
        discriminate.
  - (* start *)
    assert (Hl : lock s = Some (t, 1%nat)) by (apply Hin; congruence).
    split; cbn.
    + intros t' Ht'. case_bool_decide; [subst; exact Hl|apply Hin, Ht'].
    + intros t' n Hl'. case_bool_decide; [discriminate|].
      eapply Hown, Hl'.
  - (* exit *)
    assert (Hl : lock s = Some (t, 1%nat)) by (apply Hin; congruence).
    split; cbn.
    + intros t' Ht'. case_bool_decide; [subst; exact Hl|apply Hin, Ht'].
    + intros t' n Hl'. case_bool_decide; [discriminate|].
      eapply Hown, Hl'.
  - (* leave *)
    assert (Hl : lock s = Some (t, 1%nat)) by (apply Hin; congruence).
    rewrite Hl in Hrel. cbn in Hrel.
    rewrite bool_decide_eq_true_2 in Hrel by reflexivity.
    injection Hrel as <-. split; cbn.
    + intros t' Ht'. case_bool_decide; [congruence|].
      specialize (Hin t' Ht'). congruence.
    + intros t' n Hl'. discriminate.
  - (* the process could not be started *)
    assert (Hl : lock s = Some (t, 1%nat)) by (apply Hin; congruence).
    rewrite Hl in Hrel. cbn in Hrel.
    rewrite bool_decide_eq_true_2 in Hrel by reflexivity.
    injection Hrel as <-. split; cbn.
    + intros t' Ht'. case_bool_decide; [congruence|].
      specialize (Hin t' Ht'). congruence.
    + intros t' n Hl'. discriminate.
Qed.

Lemma reachable_lock_inv (s : state) : reachable s -> lock_inv s.
Proof.
  induction 1 as [|s s' _ IH Hstep].
  - apply lock_inv_init.
  - eapply lock_inv_step; eassumption.
Qed.

(** C8.  In every state that threads calling [Iptables.exe] can reach, a
    thread whose external process runs owns the lock, so that two threads
    whose processes run at the same moment are one and the same thread: no
    two invocations from different threads overlap. *)
Theorem exe_mutual_exclusion (s : state) :
  reachable s ->
  (forall t, is_running (pcs s t) = true -> lock s = Some (t, 1%nat))
  /\ (forall t1 t2,
        is_running (pcs s t1) = true -> is_running (pcs s t2) = true ->
        t1 = t2).
Proof.
  intros Hr. destruct (reachable_lock_inv s Hr) as [Hin _].
  assert (Hrun : forall t,
             is_running (pcs s t) = true -> lock s = Some (t, 1%nat)).
  { intros t Ht. apply Hin. intros Ho. rewrite Ho in Ht. discriminate. }
  split; [exact Hrun|].
  intros t1 t2 H1 H2. pose proof (Hrun t1 H1) as E1.
  pose proof (Hrun t2 H2) as E2. congruence.
Qed.

End gate_facts.

(** * The properties at the examples *)

Section examples.

Import PyStr Iptables Listing Command Samples.

(** Every claimed position of a concrete list of lines, one by one. *)
Ltac each_line i Hl tac :=
  repeat (destruct i as [|i];
          [injection Hl as <-; tac|cbn in Hl]);
  try discriminate Hl.

(** C1 fails as stated: these two rules differ in extra and compare
    equal. *)
Lemma Rule_eq_ignores_extra :
  extra example_rule <> extra example_rule_other_port
  /\ Rule__eq__ example_rule (PRule example_rule_other_port) = true
  /\ Rule__ne__ example_rule (PRule example_rule_other_port) = false.
Proof. split; [discriminate|split; reflexivity]. Qed.

Lemma Rule_eq_other_witness :
  Rule__eq__ example_rule (PVal (VStr "INPUT")) = false
  /\ Rule__ne__ example_rule (PVal (VStr "INPUT")) = true.
Proof.
  apply (Rule_eq_other example_rule (PVal (VStr "INPUT"))). reflexivity.
Defined.

(** C7 fails as stated: a list of eleven values raises [TypeError]. *)
Lemma Rule_new_eleven_values :
  length eleven_values = 11%nat
  /\ Rule__new__ [PList eleven_values] ∅ = Err TypeError.
Proof. split; reflexivity. Qed.

Lemma Rule_new_shapes_witness :
  Rule__new__ [PDict {[ "chain" := VStr "INPUT" ]}] ∅
  = Ok {| chain := VStr "INPUT"; num := VNone; pkts := VNone;
          bytes := VNone; target := VNone; prot := VStr "all";
          opt := VStr "--"; inp := VStr "*"; out := VStr "*";
          source := VStr "0.0.0.0/0"; destination := VStr "0.0.0.0/0";
          extra := VStr EmptyString |}.
Proof.
  destruct Rule_new_shapes as (_ & _ & Hdict & _).
  rewrite (Hdict {[ "chain" := VStr "INPUT" ]} ∅).
  - reflexivity.
  - rewrite dom_singleton_L. apply singleton_subseteq_l.
    apply elem_of_list_to_set, list_elem_of_here.
Defined.

(** C2 fails as stated: a listing with one rule line, of three columns,
    gives no record but [TypeError]; and a rule line under a chain that is
    not tracked, with no blank line before it, gives a record of the chain
    before. *)
Lemma iptables_list_short_rule :
  rule_line_count (lines_of listing_short_rule) = 1%nat
  /\ _iptables_list listing_short_rule = Err TypeError
  /\ exists r, _iptables_list listing_untracked_chain = Ok [r]
               /\ chain r = VStr "INPUT".
Proof.
  split; [reflexivity|]. split; [reflexivity|].
  eexists. split; reflexivity.
Qed.

Lemma iptables_list_rule_lines_witness :
  _iptables_list listing_two_chains
  = Ok (rule_records (lines_of listing_two_chains))
  /\ length (rule_records (lines_of listing_two_chains)) = 2%nat.
Proof.
  destruct (iptables_list_rule_lines listing_two_chains) as (Hok & Hlen & _).
  - intros l Hl. apply list_elem_of_In in Hl. vm_compute in Hl.
    repeat (destruct Hl as [<-|Hl]; [vm_compute; reflexivity|]).
    destruct Hl.
  - intros i l Hl Hr.
    set (ls := lines_of listing_two_chains) in *. vm_compute in ls.
    subst ls.
    each_line i Hl ltac:(first [vm_compute in Hr; discriminate Hr
                               |vm_compute; lia]).
  - split; [exact Hok|]. rewrite Hlen. vm_compute. reflexivity.
Defined.

(** C5 fails as stated: this line holds both words, does not split into
    the expected columns, and is read as the chain line of INPUT; the parser
    returns the empty list. *)
Lemma iptables_list_chain_with_words :
  header_like (strip listing_chain_with_words) = true
  /\ split (strip listing_chain_with_words) <> IPTABLES_HEADERS
  /\ _iptables_list listing_chain_with_words = Ok [].
Proof.
  split; [reflexivity|]. split; [|reflexivity].
  vm_compute. discriminate.
Qed.

Lemma iptables_list_bad_header_witness :
  _iptables_list listing_bad_header = Err AssertionError.
Proof.
  destruct (iptables_list_bad_header listing_bad_header 1
              (header +:+ " extra")) as (e & He & _ & Hassert).
  - vm_compute. reflexivity.
  - vm_compute. reflexivity.
  - rewrite He. f_equal. apply Hassert. intros j l' Hj Hl'.
    destruct j as [|j]; [|lia].
    vm_compute in Hl'. injection Hl' as <-. vm_compute. reflexivity.
Defined.



Lemma find_spec_witness :
  find fields_only (Iptables.mk [example_rule; example_rule_other_port])
       [("chain", [VStr "INPUT"; VStr "OUTPUT"]);
        ("extra", [VStr "tcp dpt:22"])]
  = (Iptables.mk [example_rule; example_rule_other_port],
     Ok [example_rule_other_port]).
Proof.
  destruct (find_spec fields_only
              (Iptables.mk [example_rule; example_rule_other_port])
              [("chain", [VStr "INPUT"; VStr "OUTPUT"]);
               ("extra", [VStr "tcp dpt:22"])]) as (Hfind & _).
  - intros param vals H.
    repeat (apply elem_of_cons in H as [[= -> ->]|H];
            [unfold RULE_ATTRS;
             repeat first [apply list_elem_of_here
                          |apply list_elem_of_further]|]).
    apply elem_of_nil in H. contradiction.
  - rewrite Hfind. reflexivity.
Defined.

Lemma rule_to_command_example_witness :
  rule_to_command example_rule
  = Ok ([chain example_rule] ++ flag_args "-p" "all" (prot example_rule)
        ++ concat (token_args <$> extra_words (extra example_rule))
        ++ [VStr "-j"; target example_rule]).
Proof.
  destruct rule_to_command_example as (_ & Hwild & _).
  apply Hwild.
  - left. reflexivity.
  - intros z H. discriminate H.
  - reflexivity.
  - reflexivity.
Defined.

Lemma rule_to_command_chain_check_witness :
  rule_to_command
    {| chain := VStr "PREROUTING"; num := VNone; pkts := VNone;
       bytes := VNone; target := VStr "ACCEPT"; prot := VStr "tcp";
       opt := VStr "--"; inp := VStr "*"; out := VStr "*";
       source := VStr "0.0.0.0/0"; destination := VStr "0.0.0.0/0";
       extra := VStr EmptyString |}
  = Err AssertionError.
Proof.
  apply rule_to_command_chain_check.
  intros [H|[H|H]]; discriminate H.
Defined.

Lemma exe_mutual_exclusion_witness :
  Gate.lock listing_running = Some (0, 1)%nat.
Proof.
  apply (exe_mutual_exclusion listing_running).
  - apply (Gate.reachable_step
             (Gate.set_pc Gate.init 0 (Gate.Holding ["-n"; "-L"])
                (Some (0, 1)%nat))).
    + apply (Gate.reachable_step Gate.init).
      * apply Gate.reachable_init.
      * apply (Gate.step_enter Gate.init 0%nat ["-n"; "-L"]);
          reflexivity.
    + exact (Gate.step_start
               (Gate.set_pc Gate.init 0 (Gate.Holding ["-n"; "-L"])
                  (Some (0, 1)%nat))
               0%nat ["-n"; "-L"] eq_refl).
  - reflexivity.
Defined.

End examples.

(** * Further properties *)

(** ** From the listing to the command *)

Section pipeline_facts.

Import PyStr Iptables Listing Command Pipeline.

Lemma elem_of_omap_imap {A B : Type} (f : nat -> A -> option B)
  (l : list A) (b : B) :
  b ∈ omap id (imap f l) <-> exists i x, l !! i = Some x /\ f i x = Some b.
Proof.
  revert f. induction l as [|a l IH]; intros f.
  - cbn. split; [intros H; apply elem_of_nil in H; contradiction|].
    intros (i & x & H & _). destruct i; discriminate.
  - rewrite imap_cons. cbn [omap list_omap id]. split.
    + intros H. destruct (f 0%nat a) as [b0|] eqn:H0.
      * apply elem_of_cons in H as [->|H].
        -- exists 0%nat, a. auto.
        -- apply IH in H as (i & x & Hi & Hf). exists (S i), x. auto.
      * apply IH in H as (i & x & Hi & Hf). exists (S i), x. auto.
    + intros (i & x & Hi & Hf). destruct i as [|i].
      * cbn in Hi. injection Hi as ->. rewrite Hf. apply list_elem_of_here.
      * assert (Hin : b ∈ omap id (imap (f ∘ S) l)).
        { apply IH. exists i, x. auto. }
        destruct (f 0%nat a); [apply list_elem_of_further|]; exact Hin.
Qed.

Lemma omap_imap_nil_inv {A B : Type} (f : nat -> A -> option B) (l : list A) :
  head (omap id (imap f l)) = None ->
  forall i x, l !! i = Some x -> f i x = None.
Proof.
  intros H i x Hi. destruct (f i x) as [b|] eqn:Hf; [|reflexivity].
  assert (Hin : b ∈ omap id (imap f l)).
  { apply elem_of_omap_imap. eauto. }
  destruct (omap id (imap f l)); [apply elem_of_nil in Hin; contradiction|].
  discriminate.
Qed.

Lemma chain_line_known (l c : string) :
  chain_line l = Some c -> c ∈ RULE_CHAINS.
Proof.
  unfold chain_line. destruct (re_match_chain l) as [w|]; [|discriminate].
  case_bool_decide; [|discriminate]. intros [= <-]. assumption.
Qed.

Lemma nearest_context_known (before : list string) (c : string) :
  nearest_context before = Some c -> c ∈ RULE_CHAINS.
Proof.
  induction before as [|l before IH]; cbn; [discriminate|].
  destruct (is_empty l); [discriminate|].
  destruct (chain_line l) as [name|] eqn:Hl; [|exact IH].
  intros [= <-]. eapply chain_line_known, Hl.
Qed.

(** Where each rule of a successful parse comes from. *)
Lemma iptables_list_origin (out : string) (rs : list Rule) (r : Rule) :
  _iptables_list out = Ok rs -> r ∈ rs ->
  exists i l c,
    lines_of out !! i = Some l
    /\ context_at (lines_of out) i = Some c
    /\ c ∈ RULE_CHAINS
    /\ numeric_first l = true
    /\ (10 <= length (split l))%nat
    /\ r = record_of c (split l).
Proof.
  rewrite _iptables_list_spec. unfold first_error, records.
  destruct (head _) as [e|] eqn:Hhead; [discriminate|].
  intros [= <-] Hin.
  apply elem_of_omap_imap in Hin as (i & l & Hl & Hrec).
  pose proof (omap_imap_nil_inv _ _ Hhead i l Hl) as Herr. cbn in Herr.
  unfold record_in in Hrec.
  destruct (context_at (lines_of out) i) as [c|] eqn:Hc;
    [|discriminate Hrec].
  destruct (rule_line (Some c) l && negb (header_like l)) eqn:Hrl;
    [|discriminate Hrec].
  injection Hrec as <-. exists i, l, c.
  apply andb_prop in Hrl as [Hr Hnh].
  unfold error_in, short_rule_line in Herr. rewrite Hr, Hnh in Herr.
  destruct (bad_header l); [discriminate Herr|].
  destruct (length (split l) <? 10)%nat eqn:Hlen;
    [cbn in Herr; discriminate Herr|].
  apply Nat.ltb_ge in Hlen.
  unfold rule_line in Hr. apply andb_prop in Hr as [_ Hn].
  repeat split; try assumption.
  unfold context_at in Hc. eapply nearest_context_known, Hc.
Qed.

Lemma append_cons (a : ascii) (s t : string) :
  String a s +:+ t = String a (s +:+ t).
Proof. reflexivity. Qed.

Lemma append_empty_l (t : string) : EmptyString +:+ t = t.
Proof. reflexivity. Qed.

Lemma append_empty_r (s : string) : s +:+ EmptyString = s.
Proof.
  induction s as [|a s IH]; [reflexivity|].
  rewrite append_cons, IH. reflexivity.
Qed.

Lemma is_token_cons (w : string) :
  is_token w = true <->
  w <> EmptyString /\ forall_chars (fun c => negb (isspace c)) w = true.
Proof.
  unfold is_token. rewrite andb_true_iff. destruct w; cbn; split;
    intros [H1 H2]; split; congruence.
Qed.

Lemma split_words_tokens (s : string) :
  forall_chars (fun c => negb (isspace c)) (split_words s).1 = true
  /\ Forall (fun w => is_token w = true) (split_words s).2.
Proof.
  induction s as [|c s [IHh IHt]]; cbn; [split; [reflexivity|constructor]|].
  destruct (split_words s) as [h t]. cbn in *.
  destruct (isspace c) eqn:Hc; cbn.
  - split; [reflexivity|]. unfold cons_word.
    destruct (is_empty h) eqn:He; [exact IHt|].
    constructor; [|exact IHt]. unfold is_token. rewrite He, IHh. reflexivity.
  - rewrite Hc, IHh. split; [reflexivity|exact IHt].
Qed.

(** The columns of a line are tokens. *)
Lemma split_tokens (s : string) :
  Forall (fun w => is_token w = true) (split s).
Proof.
  unfold split. pose proof (split_words_tokens s) as [Hh Ht].
  destruct (split_words s) as [h t]. cbn in *. unfold cons_word.
  destruct (is_empty h) eqn:He; [exact Ht|].
  constructor; [|exact Ht]. unfold is_token. rewrite He, Hh. reflexivity.
Qed.

Lemma split_words_app (w s : string) :
  forall_chars (fun c => negb (isspace c)) w = true ->
  split_words (w +:+ s) = ((w +:+ (split_words s).1), (split_words s).2).
Proof.
  intros Hw. induction w as [|a w IH].
  - rewrite !append_empty_l. destruct (split_words s); reflexivity.
  - cbn in Hw. apply andb_prop in Hw as [Ha Hw].
    rewrite !append_cons. cbn. rewrite (IH Hw).
    apply negb_true_iff in Ha. rewrite Ha. reflexivity.
Qed.

Lemma split_token_space (w s : string) :
  is_token w = true -> split (w +:+ " " +:+ s) = w :: split s.
Proof.
  intros Hw. apply is_token_cons in Hw as [Hne Hw].
  unfold split at 1. rewrite (split_words_app w _ Hw).
  change (" " +:+ s) with (String " " s). cbn.
  fold (split s). destruct (split_words s) as [h t] eqn:Hs. cbn.
  rewrite append_empty_r. unfold cons_word at 1.
  destruct w; [congruence|]. cbn. unfold split. rewrite Hs. reflexivity.
Qed.

Lemma split_token (w : string) : is_token w = true -> split w = [w].
Proof.
  intros Hw. apply is_token_cons in Hw as [Hne Hw].
  rewrite <- (append_empty_r w) at 1. unfold split.
  rewrite (split_words_app w _ Hw). cbn. rewrite append_empty_r.
  unfold cons_word. destruct w; [congruence|reflexivity].
Qed.

(** Joining tokens by single spaces and splitting again gives the tokens
    back. *)
Lemma split_join (ws : list string) :
  Forall (fun w => is_token w = true) ws -> split (join " " ws) = ws.
Proof.
  induction 1 as [|w ws Hw Hws IH]; [reflexivity|].
  destruct ws as [|w' ws].
  - cbn. apply split_token, Hw.
  - change (join " " (w :: w' :: ws))
      with (w +:+ " " +:+ join " " (w' :: ws)).
    rewrite (split_token_space _ _ Hw), IH. reflexivity.
Qed.

Lemma flag_args_strs (flag skip x : string) :
  flag_args flag skip (VStr x) = VStr <$> flag_strs flag skip x.
Proof.
  unfold flag_args, flag_strs. destruct (String.eqb_spec x skip) as [->|Hne].
  - rewrite bool_decide_eq_true_2 by reflexivity. reflexivity.
  - rewrite bool_decide_eq_false_2 by congruence. reflexivity.
Qed.

Lemma token_args_strs (e : string) : token_args e = VStr <$> token_strs e.
Proof.
  unfold token_args, token_strs.
  destruct (String.prefix "dpt:" e); [reflexivity|].
  destruct (String.prefix "spt:" e); reflexivity.
Qed.

Lemma concat_token_args (es : list string) :
  concat (token_args <$> es) = VStr <$> concat (token_strs <$> es).
Proof.
  induction es as [|e es IH]; [reflexivity|].
  cbn. rewrite IH, token_args_strs, fmap_app. reflexivity.
Qed.

Lemma known_chain_valid (c : string) (r : Rule) :
  c ∈ RULE_CHAINS -> chain r = VStr c -> valid_chain r.
Proof.
  unfold RULE_CHAINS, valid_chain. intros Hc ->.
  repeat (apply elem_of_cons in Hc as [->|Hc]; [tauto|]).
  apply elem_of_nil in Hc. contradiction.
Qed.

(** The command of the record of a line. *)
Lemma rule_to_command_record (c : string) (cols : list string) :
  c ∈ RULE_CHAINS ->
  Forall (fun w => is_token w = true) cols ->
  rule_to_command (record_of c cols) = Ok (VStr <$> command_strs c cols).
Proof.
  intros Hc Hcols. rewrite rule_to_command_parts.
  - cbn [record_of chain prot extra destination source target].
    rewrite !flag_args_strs. cbn [extra_words].
    rewrite (split_join (drop 10 cols)) by (apply Forall_drop, Hcols).
    rewrite concat_token_args. unfold command_strs.
    rewrite !fmap_app. reflexivity.
  - eapply known_chain_valid; [exact Hc|reflexivity].
  - intros z H. discriminate H.
Qed.

(** X1.  Every rule that the parser returns has one of the three tracked
    chains as its chain, a string of digits as its num, tokens (non-empty
    strings without whitespace) in its ten column attributes, and a string
    as its extra. *)
Theorem parsed_rule_fields (text : string) (rs : list Rule) (r : Rule) :
  _iptables_list text = Ok rs -> r ∈ rs ->
  (exists c, chain r = VStr c /\ c ∈ RULE_CHAINS)
  /\ (exists n, num r = VStr n /\ isdigit n = true)
  /\ Forall token_value
       [num r; pkts r; bytes r; target r; prot r; opt r; inp r; out r;
        source r; destination r]
  /\ (exists e, extra r = VStr e).
Proof.
  intros Hok Hin.
  destruct (iptables_list_origin text rs r Hok Hin)
    as (i & l & c & _ & _ & Hc & Hn & Hlen & ->).
  pose proof (split_tokens l) as Htok.
  split; [exists c; split; [reflexivity|exact Hc]|].
  split.
  { unfold numeric_first in Hn. destruct (split l) as [|c0 cols];
      [discriminate|]. exists c0. split; [reflexivity|exact Hn]. }
  split; [|eexists; reflexivity].
  assert (Hcol : forall k, (k < 10)%nat -> token_value (VStr (split l !!! k))).
  { intros k Hk. exists (split l !!! k). split; [reflexivity|].
    rewrite Forall_forall in Htok. apply Htok.
    apply list_elem_of_lookup_total_2. lia. }
  cbn [record_of num pkts bytes target prot opt inp out source destination].
  repeat (constructor; [apply Hcol; lia|]). constructor.
Qed.

(** X2.  On every rule that the parser returns, the command builder
    succeeds, and its arguments are the strings [command_strs] of the chain
    and the columns of the line the rule was read from. *)
Theorem parsed_rule_command (text : string) (rs : list Rule) (r : Rule) :
  _iptables_list text = Ok rs -> r ∈ rs ->
  exists i l c,
    lines_of text !! i = Some l
    /\ context_at (lines_of text) i = Some c
    /\ rule_to_command r = Ok (VStr <$> command_strs c (split l)).
Proof.
  intros Hok Hin.
  destruct (iptables_list_origin text rs r Hok Hin)
    as (i & l & c & Hl & Hctx & Hc & _ & _ & ->).
  exists i, l, c. repeat split; try assumption.
  apply rule_to_command_record; [exact Hc|apply split_tokens].
Qed.

(** X3.  Every parsed rule is the record of a line of the listing, read in
    the context of its chain, and the tokens that the command builder sees
    in its extra are exactly the columns after the tenth of that line:
    joining by single spaces and splitting again loses nothing. *)
Theorem parsed_rule_extra_tokens (text : string) (rs : list Rule) (r : Rule) :
  _iptables_list text = Ok rs -> r ∈ rs ->
  exists i l c,
    lines_of text !! i = Some l
    /\ context_at (lines_of text) i = Some c
    /\ r = record_of c (split l)
    /\ extra_words (extra r) = drop 10 (split l).
Proof.
  intros Hok Hin.
  destruct (iptables_list_origin text rs r Hok Hin)
    as (i & l & c & Hl & Hctx & _ & _ & _ & ->).
  exists i, l, c. split; [exact Hl|]. split; [exact Hctx|].
  split; [reflexivity|].
  cbn [record_of extra extra_words].
  apply split_join, Forall_drop, split_tokens.
Qed.

End pipeline_facts.

(** ** Listings in pieces *)

Section listing_pieces.

Import PyStr Iptables Listing.

Lemma split_on_app (sep : ascii) (a b : string) :
  split_on sep (a +:+ String sep b) = split_on sep a ++ split_on sep b.
Proof.
  unfold split_on. induction a as [|c a IH].
  - change (EmptyString +:+ String sep b) with (String sep b). cbn.
    rewrite Ascii.eqb_refl. destruct (split_pieces sep b). reflexivity.
  - change (String c a +:+ String sep b) with (String c (a +:+ String sep b)).
    cbn. destruct (split_pieces sep (a +:+ String sep b)) as [h t].
    destruct (split_pieces sep a) as [ha ta].
    destruct (split_pieces sep b) as [hb tb].
    cbn in IH. injection IH as -> ->.
    destruct (Ascii.eqb c sep); reflexivity.
Qed.

Lemma parse_lines_app (l1 l2 : list string) :
  forall st,
    parse_lines st (l1 ++ l2)
    = do st' <- parse_lines st l1; parse_lines st' l2.
Proof.
  induction l1 as [|l l1 IH]; intros st; [reflexivity|].
  cbn. destruct (parse_line st l) as [st'|e]; cbn; [apply IH|reflexivity].
Qed.

(** The rules found so far are only added to. *)
Lemma parse_lines_acc (raws : list string) (rs : list Rule) :
  parse_lines (None, rs) raws
  = do st <- parse_lines (None, []) raws; Ok (st.1, rs ++ st.2).
Proof.
  change (@None string) with (nearest_context (reverse [])).
  rewrite !parse_lines_spec.
  destruct (head _) as [e|]; reflexivity.
Qed.

(** X4.  Two listings with a blank line between them parse to the rules of
    the first followed by the rules of the second, and fail with the first
    failure of the two. *)
Theorem iptables_list_blank_line (a b : string) :
  _iptables_list (a +:+ Samples.nl +:+ Samples.nl +:+ b)
  = do ra <- _iptables_list a;
    do rb <- _iptables_list b;
    Ok (ra ++ rb).
Proof.
  change (a +:+ Samples.nl +:+ Samples.nl +:+ b)
    with (a +:+ String "010" (String "010" b)).
  unfold _iptables_list.
  rewrite split_on_app.
  change (String "010" b) with (EmptyString +:+ String "010" b).
  rewrite split_on_app. change (split_on "010" EmptyString) with [EmptyString].
  rewrite parse_lines_app.
  destruct (parse_lines (None, []) (split_on "010" a)) as [[ca ra]|e];
    [|reflexivity].
  cbn [bind app parse_lines].
  change (parse_line (ca, ra) EmptyString) with (@Ok parse_state (None, ra)).
  cbn [bind snd]. rewrite parse_lines_acc.
  destruct (parse_lines (None, []) (split_on "010" b)) as [[cb rb]|e];
    reflexivity.
Qed.

(** X5.  A line sets the chain context exactly when it starts with
    [Chain ], one of INPUT, OUTPUT, FORWARD, and a space. *)
Theorem chain_line_iff (l c : string) :
  chain_line l = Some c <->
  c ∈ RULE_CHAINS /\ exists rest, l = "Chain " +:+ c +:+ " " +:+ rest.
Proof.
  unfold chain_line. split.
  - destruct (re_match_chain l) as [w|] eqn:Hm; [|discriminate].
    case_bool_decide as Hw; [|discriminate]. intros [= <-].
    apply re_match_chain_spec in Hm as (_ & _ & Hrest). auto.
  - intros (Hc & rest & ->).
    assert (Hm : re_match_chain ("Chain " +:+ c +:+ " " +:+ rest) = Some c).
    { apply re_match_chain_spec. unfold RULE_CHAINS in Hc.
      repeat (apply elem_of_cons in Hc as [->|Hc];
              [split; [discriminate|split; [reflexivity|eauto]]|]).
      apply elem_of_nil in Hc. contradiction. }
    rewrite Hm. rewrite bool_decide_eq_true_2 by assumption. reflexivity.
Qed.

End listing_pieces.

(** ** Equality and queries *)

Section equality_and_queries.

Import Iptables.

Variable other_attribute : Rule -> string -> result attribute.

Lemma Rule_eq_iff (r1 r2 : Rule) :
  Rule__eq__ r1 (PRule r2) = true <->
  chain r1 = chain r2 /\ target r1 = target r2 /\ prot r1 = prot r2
  /\ opt r1 = opt r2 /\ inp r1 = inp r2 /\ out r1 = out r2
  /\ source r1 = source r2 /\ destination r1 = destination r2.
Proof.
  unfold Rule__eq__. rewrite !andb_true_iff, !py_eq_true. tauto.
Qed.

(** X6.  Equality of rules is reflexive, symmetric and transitive. *)
Theorem Rule_eq_equivalence :
  (forall r : Rule, Rule__eq__ r (PRule r) = true)
  /\ (forall r1 r2 : Rule,
        Rule__eq__ r1 (PRule r2) = Rule__eq__ r2 (PRule r1))
  /\ (forall r1 r2 r3 : Rule,
        Rule__eq__ r1 (PRule r2) = true ->
        Rule__eq__ r2 (PRule r3) = true ->
        Rule__eq__ r1 (PRule r3) = true).
Proof.
  split; [|split].
  - intros r. apply Rule_eq_iff. tauto.
  - intros r1 r2.
    destruct (Rule__eq__ r1 (PRule r2)) eqn:H12;
      destruct (Rule__eq__ r2 (PRule r1)) eqn:H21; try reflexivity.
    + apply Rule_eq_iff in H12. rewrite <- H21. symmetry.
      apply Rule_eq_iff. intuition congruence.
    + apply Rule_eq_iff in H21. rewrite <- H12.
      apply Rule_eq_iff. intuition congruence.
  - intros r1 r2 r3 H12 H23. apply Rule_eq_iff in H12, H23.
    apply Rule_eq_iff. intuition congruence.
Qed.

Lemma matches_perm (q q' : list (string * list value)) (r : Rule) :
  q ≡ₚ q' -> Query.matches q r = Query.matches q' r.
Proof.
  unfold Query.matches.
  induction 1 as [|x q q' _ IH|x y q|q q' q'' _ IH1 _ IH2]; cbn.
  - reflexivity.
  - rewrite IH. reflexivity.
  - destruct (Query.accepts r x), (Query.accepts r y); reflexivity.
  - congruence.
Qed.

Lemma filter_matches_perm (q q' : list (string * list value))
  (rs : list Rule) :
  q ≡ₚ q' ->
  List.filter (Query.matches q) rs = List.filter (Query.matches q') rs.
Proof.
  intros Hp. induction rs as [|r rs IH]; [reflexivity|].
  cbn. rewrite IH, (matches_perm q q' r Hp). reflexivity.
Qed.

(** X7.  For a query whose keys are attribute names, the result of [find]
    does not depend on the order in which the dictionary yields its
    entries. *)
Theorem find_order_irrelevant (self : Iptables.t)
  (query query' : list (string * list value)) :
  (forall param vals, (param, vals) ∈ query -> param ∈ RULE_ATTRS) ->
  query ≡ₚ query' ->
  find other_attribute self query = find other_attribute self query'.
Proof.
  intros Hq Hp. unfold find.
  rewrite (find_loop_spec other_attribute query (rules self) Hq).
  rewrite (find_loop_spec other_attribute query' (rules self)).
  - rewrite (filter_matches_perm query query' _ Hp). reflexivity.
  - intros param vals Hin. apply (Hq param vals).
    rewrite Hp. exact Hin.
Qed.

Lemma matches_app (q1 q2 : list (string * list value)) (r : Rule) :
  Query.matches (q1 ++ q2) r = Query.matches q1 r && Query.matches q2 r.
Proof. unfold Query.matches. apply forallb_app. Qed.

Lemma filter_filter (f g : Rule -> bool) (rs : list Rule) :
  List.filter g (List.filter f rs) = List.filter (fun r => f r && g r) rs.
Proof.
  induction rs as [|r rs IH]; [reflexivity|].
  cbn. destruct (f r); cbn; [destruct (g r)|]; rewrite IH; reflexivity.
Qed.

(** X8.  For queries whose keys are attribute names, searching with the
    entries of two queries together is searching with the second query in
    the result of the first; that result is a sublist of the snapshot. *)
Theorem find_refines (self : Iptables.t)
  (q1 q2 : list (string * list value)) :
  (forall param vals, (param, vals) ∈ q1 ++ q2 -> param ∈ RULE_ATTRS) ->
  exists rs1,
    (find other_attribute self q1).2 = Ok rs1
    /\ find other_attribute self (q1 ++ q2)
       = (self, (find other_attribute (Iptables.mk rs1) q2).2)
    /\ rs1 `sublist_of` rules self.
Proof.
  intros Hq.
  assert (H1 : forall param vals, (param, vals) ∈ q1 -> param ∈ RULE_ATTRS).
  { intros p v Hin. apply (Hq p v), elem_of_app. auto. }
  assert (H2 : forall param vals, (param, vals) ∈ q2 -> param ∈ RULE_ATTRS).
  { intros p v Hin. apply (Hq p v), elem_of_app. auto. }
  exists (List.filter (Query.matches q1) (rules self)).
  unfold find. cbn [snd rules].
  rewrite (find_loop_spec other_attribute q1 _ H1).
  rewrite (find_loop_spec other_attribute (q1 ++ q2) _ Hq).
  rewrite (find_loop_spec other_attribute q2 _ H2). cbn [app].
  split; [reflexivity|]. split.
  - rewrite filter_filter. f_equal. f_equal.
    induction (rules self) as [|r rs IH]; [reflexivity|].
    cbn. rewrite matches_app, IH. reflexivity.
  - induction (rules self) as [|r rs IH]; [constructor|].
    cbn. destruct (Query.matches q1 r);
      [apply sublist_skip|apply sublist_cons]; exact IH.
Qed.

End equality_and_queries.

(** ** The methods that run the tool *)

Section exec_facts.

Import PyStr Iptables Listing Command Pipeline Exec.

Variable ipt_path : string.
Variable tool : list (list string) -> list string -> proc.

Lemma strs_fmap (l : list string) : strs (VStr <$> l) = Some l.
Proof.
  induction l as [|s l IH]; [reflexivity|]. cbn. rewrite IH. reflexivity.
Qed.

Lemma strs_Some (l : list value) (args : list string) :
  strs l = Some args -> l = VStr <$> args.
Proof.
  revert args. induction l as [|v l IH]; intros args H; cbn in H.
  - injection H as <-. reflexivity.
  - destruct v as [|s|z]; try discriminate.
    destruct (strs l) as [args'|]; [|discriminate].
    injection H as <-. cbn. rewrite (IH args' eq_refl). reflexivity.
Qed.

(** What a call of [exe] with string arguments does. *)
Lemma exe_strs (args : list string) (w : world) :
  calls (exe ipt_path tool (VStr <$> args) w).1
  = calls w ++ [ipt_path :: args]
  /\ (exe ipt_path tool (VStr <$> args) w).2
     = match tool (calls w) (ipt_path :: args) with
       | Exit code text =>
           if (code =? 0)%Z then Done text
           else Fail (CalledProcessError code (ipt_path :: args) text)
       | NotStarted => Fail OSError
       end.
Proof.
  unfold exe. cbn [strs]. rewrite strs_fmap.
  cbn [fmap option_fmap option_map].
  cbn [add_log calls].
  destruct (tool (calls w) (ipt_path :: args)) as [code text|]; cbn.
  - destruct (code =? 0)%Z; cbn.
    + destruct (is_empty text); split; reflexivity.
    + split; reflexivity.
  - split; reflexivity.
Qed.

Lemma exe_not_strs (lcmd : list value) (w : world) :
  strs lcmd = None ->
  exe ipt_path tool lcmd w = (w, Fail (Raised TypeError)).
Proof.
  intros H. unfold exe. cbn [strs]. rewrite H. reflexivity.
Qed.

(** X9.  [load] runs the listing command once, whatever comes of it.  It
    returns an instance exactly when the tool exits with 0 and no line of
    the output raises; the instance holds the records of the output.  A
    non-zero exit code is a [CalledProcessError] with the code, the command
    and the output, a tool that cannot be started is an [OSError], and a
    line that raises passes its exception on. *)
Theorem load_spec (w : world) :
  calls (load ipt_path tool w).1
  = calls w ++ [[ipt_path; "-n"; "-L"; "-v"; "-x"; "--line-numbers"]]
  /\ (load ipt_path tool w).2
     = match tool (calls w)
               [ipt_path; "-n"; "-L"; "-v"; "-x"; "--line-numbers"] with
       | Exit code text =>
           if (code =? 0)%Z then
             match first_error (lines_of text) with
             | Some e => Fail (Raised e)
             | None => Done (Iptables.mk (records (lines_of text)))
             end
           else
             Fail (CalledProcessError code
                     [ipt_path; "-n"; "-L"; "-v"; "-x"; "--line-numbers"]
                     text)
       | NotStarted => Fail OSError
       end.
Proof.
  pose proof (exe_strs ["-n"; "-L"; "-v"; "-x"; "--line-numbers"] w)
    as [Hc Ho].
  unfold load, Exec._iptables_list, io_bind.
  change [VStr "-n"; VStr "-L"; VStr "-v"; VStr "-x"; VStr "--line-numbers"]
    with (VStr <$> ["-n"; "-L"; "-v"; "-x"; "--line-numbers"]).
  destruct (exe ipt_path tool _ w) as [w' o]. cbn [fst snd] in Hc, Ho.
  subst o.
  destruct (tool (calls w) _) as [code text|].
  - destruct (code =? 0)%Z; [|split; [exact Hc|reflexivity]].
    rewrite _iptables_list_spec.
    destruct (first_error (lines_of text)); cbn; split;
      first [exact Hc|reflexivity].
  - split; [exact Hc|reflexivity].
Qed.

(** The arguments of a rule end with [-j] and the target, when there are
    any. *)
Lemma rule_to_command_tail (r : Rule) (lcmd : list value) :
  rule_to_command r = Ok lcmd ->
  valid_chain r /\ exists args, lcmd = args ++ [VStr "-j"; target r].
Proof.
  intros Hok.
  destruct (decide (valid_chain r)) as [Hc|Hc].
  - split; [exact Hc|].
    assert (Hx : (forall z, extra r = VInt z -> z = 0%Z)
                 \/ exists z, extra r = VInt z /\ z <> 0%Z).
    { destruct (extra r) as [|s|z]; try (left; discriminate).
      destruct (decide (z = 0%Z)) as [->|Hnz].
      - left. intros z [= <-]. reflexivity.
      - right. eauto. }
    destruct Hx as [Hx|(z & Hz & Hnz)].
    + rewrite rule_to_command_parts in Hok by assumption.
      injection Hok as <-. eexists (chain r :: _). cbn [app].
      rewrite !app_assoc. reflexivity.
    + exfalso. unfold rule_to_command in Hok.
      rewrite assert_chain, decide_True in Hok by assumption.
      cbn [bind] in Hok. rewrite Hz in Hok. cbn [truthy] in Hok.
      rewrite (proj2 (Z.eqb_neq z 0) Hnz) in Hok. discriminate Hok.
  - exfalso. unfold rule_to_command in Hok.
    rewrite assert_chain, decide_False in Hok by assumption.
    discriminate Hok.
Qed.

Lemma assert_modify (modify : value) :
  Iptables.assert (py_eq modify (VStr "I") || py_eq modify (VStr "D"))
  = if decide (modify = VStr "I" \/ modify = VStr "D") then Ok tt
    else Err AssertionError.
Proof.
  unfold py_eq, Iptables.assert.
  destruct (decide _) as [H|H]; repeat case_bool_decide; cbn;
    try reflexivity; tauto.
Qed.

(** X10.  [exe_rule] either raises an exception of the pure part and leaves
    the world as it was, or it makes exactly one call: the tool, [-I] or
    [-D], and the arguments of the rule, whose chain is then one of the
    three.  It never runs anything else. *)
Theorem exe_rule_guard (modify : value) (rule : Rule) (w : world) :
  ((exe_rule ipt_path tool modify rule w).1 = w
   /\ exists e, (exe_rule ipt_path tool modify rule w).2 = Fail (Raised e))
  \/ (exists m args,
        modify = VStr m /\ (m = "I" \/ m = "D")
        /\ valid_chain rule
        /\ rule_to_command rule = Ok (VStr <$> args)
        /\ calls (exe_rule ipt_path tool modify rule w).1
           = calls w ++ [ipt_path :: ("-" +:+ m) :: args]).
Proof.
  unfold exe_rule, io_bind. rewrite assert_modify.
  destruct (decide (modify = VStr "I" \/ modify = VStr "D")) as [Hm|Hm];
    [|left; split; [reflexivity|eexists; reflexivity]].
  cbn [lift ret].
  destruct (rule_to_command rule) as [lcmd|e] eqn:Hcmd;
    [|left; split; [reflexivity|eexists; reflexivity]].
  cbn [lift ret].
  assert (Hstr : exists m, modify = VStr m /\ (m = "I" \/ m = "D")).
  { destruct Hm as [-> | ->]; eexists; split; eauto. }
  destruct Hstr as (m & -> & Hm'). cbn [minus_plus lift ret].
  destruct (strs lcmd) as [args|] eqn:Hs.
  - right. apply strs_Some in Hs as ->. exists m, args.
    repeat split; try assumption.
    + apply (rule_to_command_tail _ _ Hcmd).
    + change ([VStr ("-" +:+ m)] ++ (VStr <$> args))
        with (VStr <$> (("-" +:+ m) :: args)).
      apply exe_strs.
  - left. rewrite exe_not_strs.
    + split; [reflexivity|eexists; reflexivity].
    + cbn. rewrite Hs. reflexivity.
Qed.

(** X11.  Inserting or deleting a rule that the parser returned always
    reaches the tool: one call, with [-I] or [-D] and the arguments of the
    line the rule was read from; the output is returned when the tool exits
    with 0, and the failure of the tool raised otherwise. *)
Theorem exe_rule_parsed (text : string) (rs : list Rule) (r : Rule)
  (m : string) (w : world) :
  Iptables._iptables_list text = Ok rs -> r ∈ rs ->
  m = "I" \/ m = "D" ->
  exists i l c,
    lines_of text !! i = Some l
    /\ context_at (lines_of text) i = Some c
    /\ calls (exe_rule ipt_path tool (VStr m) r w).1
       = calls w ++ [ipt_path :: ("-" +:+ m) :: command_strs c (split l)]
    /\ (exe_rule ipt_path tool (VStr m) r w).2
       = match tool (calls w)
                 (ipt_path :: ("-" +:+ m) :: command_strs c (split l)) with
         | Exit code text' =>
             if (code =? 0)%Z then Done text'
             else Fail (CalledProcessError code
                          (ipt_path :: ("-" +:+ m)
                           :: command_strs c (split l)) text')
         | NotStarted => Fail OSError
         end.
Proof.
  intros Hok Hin Hm.
  destruct (iptables_list_origin text rs r Hok Hin)
    as (i & l & c & Hl & Hctx & Hc & _ & _ & ->).
  exists i, l, c. split; [exact Hl|]. split; [exact Hctx|].
  unfold exe_rule, io_bind. rewrite assert_modify.
  rewrite decide_True by (destruct Hm as [-> | ->]; auto).
  cbn [lift ret].
  rewrite rule_to_command_record by (assumption || apply split_tokens).
  cbn [lift ret minus_plus].
  change ([VStr ("-" +:+ m)] ++ (VStr <$> command_strs c (split l)))
    with (VStr <$> (("-" +:+ m) :: command_strs c (split l))).
  apply exe_strs.
Qed.

Lemma strs_app_None (l1 l2 : list value) :
  strs l2 = None -> strs (l1 ++ l2) = None.
Proof.
  intros H. induction l1 as [|v l1 IH]; [exact H|].
  cbn. destruct v; try reflexivity. rewrite IH. reflexivity.
Qed.

(** X12.  A rule built from a dictionary that gives no target has the
    target [None], and cannot be applied: [exe_rule] raises before anything
    is run or logged. *)
Theorem exe_rule_without_target (props kwargs : gmap string value)
  (r : Rule) (modify : value) (w : world) :
  Rule__new__ [PDict props] kwargs = Ok r ->
  props !! "target" = None ->
  target r = VNone
  /\ exists e, exe_rule ipt_path tool modify r w = (w, Fail (Raised e)).
Proof.
  intros Hnew Ht.
  assert (Htarget : target r = VNone).
  { change (Rule__new__ [PDict props] kwargs)
      with (RuleProto_new_kwargs (props ∪ Rule_defaults)) in Hnew.
    destruct (decide (dom props ⊆ list_to_set RULE_ATTRS)) as [Hsub|Hsub].
    - rewrite (RuleProto_new_kwargs_defaults props Hsub) in Hnew.
      injection Hnew as <-. cbn. rewrite Ht. reflexivity.
    - unfold RuleProto_new_kwargs in Hnew.
      rewrite bool_decide_eq_false_2 in Hnew; [discriminate Hnew|].
      intros Hdom. apply Hsub. etrans; [|exact Hdom].
      rewrite dom_union_L. apply union_subseteq_l. }
  split; [exact Htarget|].
  unfold exe_rule, io_bind. rewrite assert_modify.
  destruct (decide (modify = VStr "I" \/ modify = VStr "D")) as [Hm|Hm];
    [|eexists; reflexivity].
  cbn [lift ret].
  destruct (rule_to_command r) as [lcmd|e] eqn:Hcmd; [|eexists; reflexivity].
  cbn [lift ret].
  destruct (rule_to_command_tail _ _ Hcmd) as (_ & args & ->).
  destruct Hm as [-> | ->]; cbn [minus_plus lift ret];
    (rewrite exe_not_strs; [eexists; reflexivity|]);
    rewrite Htarget; apply strs_app_None, strs_app_None; reflexivity.
Qed.

(** X13.  [verify_install] makes the one call [-h] and replaces only the
    [OSError] of a tool that cannot be started by its own exception; a
    non-zero exit code passes as [CalledProcessError].  [verify_permission]
    makes the one call [-n -L OUTPUT] and replaces only the
    [CalledProcessError] of a non-zero exit code; an [OSError] passes.
    Neither raises when the tool exits with 0. *)
Theorem verify_translation (w : world) :
  (calls (verify_install ipt_path tool w).1 = calls w ++ [[ipt_path; "-h"]]
   /\ (verify_install ipt_path tool w).2
      = match tool (calls w) [ipt_path; "-h"] with
        | Exit code text =>
            if (code =? 0)%Z then Done tt
            else Fail (CalledProcessError code [ipt_path; "-h"] text)
        | NotStarted =>
            Fail (Exception
                    ("Could not find " +:+ ipt_path
                     +:+ ". Check if it is correctly installed and if the "
                     +:+ "path is correct."))
        end)
  /\ (calls (verify_permission ipt_path tool w).1
      = calls w ++ [[ipt_path; "-n"; "-L"; "OUTPUT"]]
      /\ (verify_permission ipt_path tool w).2
         = match tool (calls w) [ipt_path; "-n"; "-L"; "OUTPUT"] with
           | Exit code text =>
               if (code =? 0)%Z then Done tt
               else Fail (Exception
                            ("No sufficient permission to run " +:+ ipt_path
                             +:+ ". You must be root."))
           | NotStarted => Fail OSError
           end).
Proof.
  split.
  - pose proof (exe_strs ["-h"] w) as [Hc Ho].
    unfold verify_install, try_except, io_bind.
    change [VStr "-h"] with (VStr <$> ["-h"]).
    destruct (exe ipt_path tool _ w) as [w' o]. cbn [fst snd] in Hc, Ho.
    subst o.
    destruct (tool (calls w) _) as [code text|];
      [destruct (code =? 0)%Z|]; split; first [exact Hc|reflexivity].
  - pose proof (exe_strs ["-n"; "-L"; "OUTPUT"] w) as [Hc Ho].
    unfold verify_permission, try_except, io_bind.
    change [VStr "-n"; VStr "-L"; VStr "OUTPUT"]
      with (VStr <$> ["-n"; "-L"; "OUTPUT"]).
    destruct (exe ipt_path tool _ w) as [w' o]. cbn [fst snd] in Hc, Ho.
    subst o.
    destruct (tool (calls w) _) as [code text|];
      [destruct (code =? 0)%Z|]; split; first [exact Hc|reflexivity].
Qed.


(** X14.  When [exe] raises [CalledProcessError], the code is not 0, the
    command is the one call added to the calls, and the log is the log
    before with the debug message of the command and then the failure
    added: the failure is logged last, before it is raised.  When [exe]
    returns, it returns the output of the one call added, which exited with
    0, and the log is the log before with only debug messages added: that
    of the command, and that of the output unless it is empty. *)
Theorem exe_logs_failure (lcmd : list value) (w : world) :
  (forall code cmd text,
      (exe ipt_path tool lcmd w).2 = Fail (CalledProcessError code cmd text) ->
      code <> 0%Z
      /\ tool (calls w) cmd = Exit code text
      /\ calls (exe ipt_path tool lcmd w).1 = calls w ++ [cmd]
      /\ log (exe ipt_path tool lcmd w).1
         = log w ++ [Debug ("Iptables.exe(): " +:+ join " " cmd);
                     Error code cmd text])
  /\ (forall text,
        (exe ipt_path tool lcmd w).2 = Done text ->
        exists cmd,
          tool (calls w) cmd = Exit 0 text
          /\ calls (exe ipt_path tool lcmd w).1 = calls w ++ [cmd]
          /\ log (exe ipt_path tool lcmd w).1
             = log w ++ [Debug ("Iptables.exe(): " +:+ join " " cmd)]
               ++ (if is_empty text then []
                   else [Debug ("Iptables.exe() output: " +:+ text)])).
Proof.
  unfold exe. destruct (strs (VStr ipt_path :: lcmd)) as [cmd|];
    [|split; intros; discriminate].
  cbn [add_log calls].
  destruct (tool (calls w) cmd) as [code text|] eqn:Htool;
    [|split; intros; discriminate].
  destruct (code =? 0)%Z eqn:Hcode.
  - split; [intros; discriminate|]. intros text' [= <-].
    apply Z.eqb_eq in Hcode as ->. exists cmd.
    split; [exact Htool|].
    destruct (is_empty text); cbn; rewrite <- ?app_assoc; split; reflexivity.
  - split; [|intros; discriminate]. intros code' cmd' text' [= <- <- <-].
    apply Z.eqb_neq in Hcode. cbn. rewrite <- app_assoc. auto.
Qed.

End exec_facts.

(** ** The lock *)

Section lock_facts.

Import Gate.

(** X15.  In every reachable state the lock is free exactly when no thread
    is inside the block of [exe]; when it is held, it is held once, by a
    thread inside the block: the block is left with the lock released on
    every path, and the lock is never taken twice. *)
Theorem lock_free_iff (s : state) :
  reachable s ->
  (lock s = None <-> forall t, pcs s t = Outside)
  /\ (forall t n, lock s = Some (t, n) -> n = 1%nat /\ pcs s t <> Outside).
Proof.
  intros Hr. destruct (reachable_lock_inv s Hr) as [Hin Hown]. split.
  - split.
    + intros Hl t. destruct (pcs s t) eqn:Hpc; [reflexivity|..];
        assert (Hne : pcs s t <> Outside) by congruence;
        specialize (Hin t Hne); congruence.
    + intros Hall. destruct (lock s) as [[t n]|] eqn:Hl; [|reflexivity].
      exfalso. apply (Hown t n eq_refl), Hall.
  - intros t n Hl. pose proof (Hown t n Hl) as Hne.
    split; [|exact Hne]. specialize (Hin t Hne). congruence.
Qed.

(** X16.  In every reachable state a thread inside the block of [exe] can
    take its next step, so that leaving the block never fails; and when no
    thread is inside, any thread can enter. *)
Theorem exe_never_stuck (s : state) :
  reachable s ->
  (forall t, pcs s t <> Outside ->
     exists s', step s s' /\ pcs s' t <> pcs s t)
  /\ ((forall t, pcs s t = Outside) ->
      forall t lcmd, exists s', step s s' /\ pcs s' t = Holding lcmd).
Proof.
  intros Hr. destruct (reachable_lock_inv s Hr) as [Hin Hown]. split.
  - intros t Hne. pose proof (Hin t Hne) as Hl.
    destruct (pcs s t) as [|lcmd|lcmd|lcmd code] eqn:Hpc; [congruence|..].
    + exists (set_pc s t (Running lcmd) (lock s)). split.
      * apply step_start, Hpc.
      * cbn. rewrite bool_decide_eq_true_2 by reflexivity. discriminate.
    + exists (set_pc s t (Exited lcmd 0%Z) (lock s)). split.
      * apply step_exit, Hpc.
      * cbn. rewrite bool_decide_eq_true_2 by reflexivity. discriminate.
    + exists (set_pc s t Outside None). split.
      * apply (step_leave s t lcmd code); [exact Hpc|].
        rewrite Hl. cbn. rewrite bool_decide_eq_true_2 by reflexivity.
        reflexivity.
      * cbn. rewrite bool_decide_eq_true_2 by reflexivity. discriminate.
  - intros Hall t lcmd.
    assert (Hl : lock s = None).
    { destruct (lock s) as [[t' n]|] eqn:Hl; [|reflexivity].
      exfalso. apply (Hown t' n eq_refl), Hall. }
    exists (set_pc s t (Holding lcmd) (Some (t, 1%nat))). split.
    + apply step_enter; [apply Hall|]. rewrite Hl. reflexivity.
    + cbn. rewrite bool_decide_eq_true_2 by reflexivity. reflexivity.
Qed.


Lemma listing_running_reachable : reachable Samples.listing_running.
Proof.
  apply (reachable_step
           (set_pc init 0 (Holding ["-n"; "-L"]) (Some (0, 1)%nat))).
  - apply (reachable_step init).
    + apply reachable_init.
    + apply (step_enter init 0%nat ["-n"; "-L"]); reflexivity.
  - exact (step_start
             (set_pc init 0 (Holding ["-n"; "-L"]) (Some (0, 1)%nat))
             0%nat ["-n"; "-L"] eq_refl).
Qed.

End lock_facts.

(** ** The constructor on what a rule gives back *)

Section tuple_facts.

Import Tuple.

Lemma dom_Rule_asdict (r : Rule) :
  dom (Rule_asdict r) = list_to_set RULE_ATTRS.
Proof. unfold Rule_asdict. rewrite dom_list_to_map_L. reflexivity. Qed.

(** X17.  A rule is given back by the constructor from the list of its
    values, from its dictionary, and from its dictionary as keywords. *)
Theorem Rule_round_trip (r : Rule) (kwargs : gmap string value) :
  Rule__new__ [PList (Rule_values r)] kwargs = Ok r
  /\ Rule__new__ [PDict (Rule_asdict r)] kwargs = Ok r
  /\ Rule__new__ [] (Rule_asdict r) = Ok r.
Proof.
  split; [destruct r; reflexivity|]. split.
  - change (Rule__new__ [PDict (Rule_asdict r)] kwargs)
      with (RuleProto_new_kwargs (Rule_asdict r ∪ Rule_defaults)).
    rewrite RuleProto_new_kwargs_defaults
      by (rewrite dom_Rule_asdict; reflexivity).
    destruct r. reflexivity.
  - cbn [Rule__new__].
    rewrite bool_decide_eq_true_2.
    + rewrite RuleProto_new_kwargs_exact by apply dom_Rule_asdict.
      destruct r. reflexivity.
    + intros H. pose proof (dom_Rule_asdict r) as Hd. rewrite H in Hd.
      rewrite dom_empty_L in Hd.
      assert (Hin : "chain" ∈ (∅ : gset string)).
      { rewrite Hd. apply elem_of_list_to_set, list_elem_of_here. }
      apply elem_of_empty in Hin. exact Hin.
Qed.

End tuple_facts.

(** * The further properties at the examples *)

Section more_examples.

Import PyStr Iptables Listing Command Pipeline Exec Samples MoreSamples.

Lemma listing_two_chains_rules :
  Iptables._iptables_list listing_two_chains = Ok [input_rule; output_rule].
Proof. vm_compute. reflexivity. Qed.

Lemma parsed_rule_fields_witness :
  exists n, num input_rule = VStr n /\ isdigit n = true.
Proof.
  apply (parsed_rule_fields listing_two_chains [input_rule; output_rule]
           input_rule).
  - exact listing_two_chains_rules.
  - apply list_elem_of_here.
Defined.

Lemma parsed_rule_command_witness :
  exists i l c,
    lines_of listing_two_chains !! i = Some l
    /\ context_at (lines_of listing_two_chains) i = Some c
    /\ rule_to_command output_rule = Ok (VStr <$> command_strs c (split l)).
Proof.
  apply (parsed_rule_command listing_two_chains [input_rule; output_rule]
           output_rule).
  - exact listing_two_chains_rules.
  - apply list_elem_of_further, list_elem_of_here.
Defined.

Lemma parsed_rule_extra_tokens_witness :
  exists i l c,
    lines_of listing_two_chains !! i = Some l
    /\ context_at (lines_of listing_two_chains) i = Some c
    /\ input_rule = record_of c (split l)
    /\ extra_words (extra input_rule) = drop 10 (split l).
Proof.
  apply (parsed_rule_extra_tokens listing_two_chains
           [input_rule; output_rule] input_rule).
  - exact listing_two_chains_rules.
  - apply list_elem_of_here.
Defined.

Lemma find_order_irrelevant_witness :
  find fields_only (Iptables.mk [input_rule; output_rule])
       [("chain", [VStr "INPUT"; VStr "OUTPUT"]); ("prot", [VStr "all"])]
  = find fields_only (Iptables.mk [input_rule; output_rule])
         [("prot", [VStr "all"]); ("chain", [VStr "INPUT"; VStr "OUTPUT"])].
Proof.
  apply find_order_irrelevant.
  - intros param vals H.
    repeat (apply elem_of_cons in H as [[= -> ->]|H];
            [unfold RULE_ATTRS;
             repeat first [apply list_elem_of_here
                          |apply list_elem_of_further]|]).
    apply elem_of_nil in H. contradiction.
  - apply perm_swap.
Defined.

Lemma find_refines_witness :
  exists rs1,
    (find fields_only (Iptables.mk [input_rule; output_rule])
          [("chain", [VStr "INPUT"; VStr "OUTPUT"])]).2 = Ok rs1
    /\ find fields_only (Iptables.mk [input_rule; output_rule])
            ([("chain", [VStr "INPUT"; VStr "OUTPUT"])]
             ++ [("prot", [VStr "all"])])
       = (Iptables.mk [input_rule; output_rule],
          (find fields_only (Iptables.mk rs1)
             [("prot", [VStr "all"])]).2)
    /\ rs1 `sublist_of` [input_rule; output_rule].
Proof.
  apply (find_refines fields_only (Iptables.mk [input_rule; output_rule])).
  intros param vals H.
  repeat (apply elem_of_cons in H as [[= -> ->]|H];
          [unfold RULE_ATTRS;
           repeat first [apply list_elem_of_here
                        |apply list_elem_of_further]|]).
  apply elem_of_nil in H. contradiction.
Defined.

Lemma exe_rule_parsed_witness :
  exists i l c,
    lines_of listing_two_chains !! i = Some l
    /\ context_at (lines_of listing_two_chains) i = Some c
    /\ calls (exe_rule "iptables" refusing_tool (VStr "D") output_rule
                fresh).1
       = calls fresh ++ ["iptables" :: ("-" +:+ "D")
                         :: command_strs c (split l)]
    /\ (exe_rule "iptables" refusing_tool (VStr "D") output_rule fresh).2
       = match refusing_tool (calls fresh)
                 ("iptables" :: ("-" +:+ "D")
                  :: command_strs c (split l)) with
         | Exit code text' =>
             if (code =? 0)%Z then Done text'
             else Fail (CalledProcessError code
                          ("iptables" :: ("-" +:+ "D")
                           :: command_strs c (split l)) text')
         | NotStarted => Fail OSError
         end.
Proof.
  apply (exe_rule_parsed "iptables" refusing_tool listing_two_chains
           [input_rule; output_rule] output_rule "D" fresh).
  - exact listing_two_chains_rules.
  - apply list_elem_of_further, list_elem_of_here.
  - right. reflexivity.
Defined.

Lemma exe_rule_without_target_witness :
  exists e,
    exe_rule "iptables" listing_tool (VStr "I")
      {| chain := VStr "INPUT"; num := VNone; pkts := VNone;
         bytes := VNone; target := VNone; prot := VStr "all";
         opt := VStr "--"; inp := VStr "*"; out := VStr "*";
         source := VStr "0.0.0.0/0"; destination := VStr "0.0.0.0/0";
         extra := VStr EmptyString |}
      fresh
    = (fresh, Fail (Raised e)).
Proof.
  apply (exe_rule_without_target "iptables" listing_tool
           {[ "chain" := VStr "INPUT" ]} ∅).
  - vm_compute. reflexivity.
  - reflexivity.
Defined.

Lemma lock_free_iff_witness :
  (Gate.lock listing_running = None
   <-> forall t, Gate.pcs listing_running t = Gate.Outside)
  /\ (forall t n, Gate.lock listing_running = Some (t, n) ->
        n = 1%nat /\ Gate.pcs listing_running t <> Gate.Outside).
Proof. apply lock_free_iff, listing_running_reachable. Defined.

Lemma exe_never_stuck_witness :
  exists s', Gate.step listing_running s'
             /\ Gate.pcs s' 0%nat <> Gate.pcs listing_running 0%nat.
Proof.
  apply (exe_never_stuck listing_running listing_running_reachable).
  discriminate.
Defined.

End more_examples.
